(** * Contact-record normalisation listener (src/listener.js)

    A shallow embedding of the formatting pipeline of the Flatfile
    listener: the three text canonicalisers ([formatPhoneNumber],
    [isUSANumber], [toNameCase]), the row signature ([createRowSignature])
    the body of [formatRecords] (bounded-retry fetch, the two passes over
    the fetched records, the batch update), and the handler of the
    "Format Data Now" job action that runs it.

    Modelling conventions.
    - A JavaScript string is a [string] holding its text in UTF-8.  The
      character classes the source uses ([\d], [\D], [\w], [\b], [\s]) and
      the case maps are modelled on the ASCII range: a byte above 0x7F is
      a non-word, non-digit, non-space character that the case maps leave
      alone, and lengths are those of ASCII text.
    - A JavaScript value is a [jsval]; numbers are the integers, printed in
      decimal.  An object is seen through the only property the source
      ever reads from a field value, [value].
    - An element of a fetched list is a record object or [null].
    - [console.log] output is not part of the model, except the messages
      of the retry loop. *)

From Stdlib Require Import ZArith Ascii String List Lia Permutation DecimalString.
From stdpp Require Import gmap strings.

#[local] Arguments String.append !_ _ / : simpl nomatch.

(** ** JavaScript values *)

(** [JObj v] is an object whose [value] property holds [v]
    ([JUndefined] when the object has no such property). *)
Inductive jsval : Type :=
| JUndefined
| JNull
| JBool (b : bool)
| JNum (z : Z)
| JStr (s : string)
| JObj (value : jsval).

Definition jsval_eqb_str (v : jsval) (s : string) : bool :=
  match v with JStr t => String.eqb t s | _ => false end.

Definition jsval_eqb_bool (v : jsval) (b : bool) : bool :=
  match v with JBool c => Bool.eqb c b | _ => false end.

(** ToBoolean. *)
Definition truthy (v : jsval) : bool :=
  match v with
  | JUndefined | JNull => false
  | JBool b => b
  | JNum z => negb (z =? 0)%Z
  | JStr s => negb (String.eqb s "")
  | JObj _ => true
  end.

(** [a || b]. *)
Definition js_or (a b : jsval) : jsval := if truthy a then a else b.

(** [x?.value]. *)
Definition opt_value (x : jsval) : jsval :=
  match x with JObj v => v | _ => JUndefined end.

(** The recurring idiom [x?.value || x]. *)
Definition unwrap (x : jsval) : jsval := js_or (opt_value x) x.

Definition Z_to_string (z : Z) : string := NilZero.string_of_int (Z.to_int z).
Definition nat_to_string (n : nat) : string := Z_to_string (Z.of_nat n).

(** ToString, as performed by [x.toString()] on a non-nullish value and by
    a template literal. *)
Definition js_toString (v : jsval) : string :=
  match v with
  | JUndefined => "undefined"
  | JNull => "null"
  | JBool true => "true"
  | JBool false => "false"
  | JNum z => Z_to_string z
  | JStr s => s
  | JObj _ => "[object Object]"
  end.

Definition is_string (v : jsval) : bool :=
  match v with JStr _ => true | _ => false end.

(** ** String primitives *)

Definition code (c : ascii) : nat := nat_of_ascii c.

Definition is_digit (c : ascii) : bool := (48 <=? code c) && (code c <=? 57).
Definition is_upper (c : ascii) : bool := (65 <=? code c) && (code c <=? 90).
Definition is_lower (c : ascii) : bool := (97 <=? code c) && (code c <=? 122).

(** [\w] is [[A-Za-z0-9_]]. *)
Definition is_word (c : ascii) : bool :=
  is_upper c || is_lower c || is_digit c || (code c =? 95).

(** [\s] on the ASCII range: tab, line feed, vertical tab, form feed,
    carriage return, space. *)
Definition is_space (c : ascii) : bool :=
  ((9 <=? code c) && (code c <=? 13)) || (code c =? 32).

Definition lower_char (c : ascii) : ascii :=
  if is_upper c then ascii_of_nat (code c + 32) else c.
Definition upper_char (c : ascii) : ascii :=
  if is_lower c then ascii_of_nat (code c - 32) else c.

Fixpoint str_map (f : ascii -> ascii) (s : string) : string :=
  match s with
  | EmptyString => EmptyString
  | String c s' => String (f c) (str_map f s')
  end.

Fixpoint str_filter (p : ascii -> bool) (s : string) : string :=
  match s with
  | EmptyString => EmptyString
  | String c s' => if p c then String c (str_filter p s') else str_filter p s'
  end.

Fixpoint str_drop (n : nat) (s : string) : string :=
  match n, s with
  | O, _ => s
  | S _, EmptyString => EmptyString
  | S n', String _ s' => str_drop n' s'
  end.

Fixpoint str_take (n : nat) (s : string) : string :=
  match n, s with
  | O, _ => EmptyString
  | S _, EmptyString => EmptyString
  | S n', String c s' => String c (str_take n' s')
  end.

(** [s.slice(a, b)] and [s.slice(a)] for non-negative indices. *)
Definition slice (a b : nat) (s : string) : string := str_take (b - a) (str_drop a s).
Definition slice_from (a : nat) (s : string) : string := str_drop a s.

(** [s.startsWith(p)]. *)
Fixpoint startsWith (p s : string) : bool :=
  match p, s with
  | EmptyString, _ => true
  | String _ _, EmptyString => false
  | String a p', String b s' => Ascii.eqb a b && startsWith p' s'
  end.

(** [s.replace(/\D/g, "")]. *)
Definition strip_non_digits (s : string) : string := str_filter is_digit s.

Definition toLowerCase (s : string) : string := str_map lower_char s.

(** ** formatPhoneNumber (listener.js, lines 8-37) *)

Definition formatPhoneNumber (phone : jsval) : string :=
  if negb (truthy phone) then ""
  else
    let cleanPhone := strip_non_digits (js_toString phone) in
    if String.length cleanPhone =? 10 then
      "+1 (" +:+ slice 0 3 cleanPhone +:+ ") " +:+ slice 3 6 cleanPhone
        +:+ "-" +:+ slice_from 6 cleanPhone
    else if (String.length cleanPhone =? 11) && startsWith "1" cleanPhone then
      "+" +:+ slice 0 1 cleanPhone +:+ " (" +:+ slice 1 4 cleanPhone +:+ ") "
        +:+ slice 4 7 cleanPhone +:+ "-" +:+ slice_from 7 cleanPhone
    else if startsWith "+" (js_toString phone) then js_toString phone
    else "+" +:+ cleanPhone.

(** ** isUSANumber (listener.js, lines 43-88) *)

(** The three anchored patterns of the function are sequences of
    single-character items; [\s?] is the only optional one. *)
Inductive pat : Type :=
| PDigit
| PLit (c : ascii)
| POptSpace.

Fixpoint pat_match (p : list pat) (s : string) : bool :=
  match p with
  | [] => match s with EmptyString => true | _ => false end
  | PDigit :: p' =>
      match s with
      | String c s' => is_digit c && pat_match p' s'
      | EmptyString => false
      end
  | PLit a :: p' =>
      match s with
      | String c s' => Ascii.eqb c a && pat_match p' s'
      | EmptyString => false
      end
  | POptSpace :: p' =>
      match s with
      | String c s' => (is_space c && pat_match p' s') || pat_match p' s
      | EmptyString => pat_match p' s
      end
  end.

(** [/^\d{10}$/] *)
Definition re_ten_digits : list pat := repeat PDigit 10.

(** [/^\d{1}\s?\(\d{3}\)\s?\d{3}-\d{4}$/] *)
Definition re_formatted_tail : list pat :=
  [PDigit; POptSpace; PLit "("%char; PDigit; PDigit; PDigit; PLit ")"%char;
   POptSpace; PDigit; PDigit; PDigit; PLit "-"%char;
   PDigit; PDigit; PDigit; PDigit].

(** [/^\d$/.test(s.charAt(i))] *)
Definition digit_at (i : nat) (s : string) : bool :=
  match String.get i s with Some c => is_digit c | None => false end.

Definition isUSANumber (phone : jsval) : bool :=
  if negb (truthy phone) then false
  else
    let phoneStr := js_toString phone in
    if startsWith "+1 " phoneStr then true
    else
      let afterPlus1 := str_drop 2 phoneStr in
      let inner : option bool :=
        if startsWith "+1" phoneStr && (2 <? String.length phoneStr) then
          if digit_at 2 phoneStr then
            if pat_match re_ten_digits afterPlus1
               || pat_match re_formatted_tail afterPlus1 then Some true
            else if 10 <? String.length afterPlus1 then Some false
            else None
          else None
        else None in
      match inner with
      | Some b => b
      | None =>
          let cleanPhone := strip_non_digits phoneStr in
          if String.length cleanPhone =? 10 then true
          else if (String.length cleanPhone =? 11) && startsWith "1" cleanPhone
               then true
               else false
      end.

(** ** toNameCase (listener.js, lines 94-98) *)

(** [s.replace(/\b\w/g, l => l.toUpperCase())], scanning left to right;
    [prev] tells whether the character before the current position is a
    word character.  A word character matches exactly when the one before
    it is not a word character (or there is none). *)
Fixpoint capitalize_words (prev : bool) (s : string) : string :=
  match s with
  | EmptyString => EmptyString
  | String c s' =>
      String (if is_word c && negb prev then upper_char c else c)
             (capitalize_words (is_word c) s')
  end.

Definition toNameCase (name : jsval) : string :=
  if negb (truthy name) || negb (is_string name) then ""
  else capitalize_words false (toLowerCase (js_toString name)).

(** ** Records *)

(** An element of a fetched record list: a record object with its
    identifier and its field map, which may be missing, or [null].  The
    field map lists the properties of the [values] object in
    [Object.entries] order. *)
Inductive record : Type :=
| mkRecord (id : string) (values : option (list (string * jsval)))
| NullRecord.

(** [record?.values]: a null element has none. *)
Definition r_values (rec : record) : option (list (string * jsval)) :=
  match rec with
  | mkRecord _ values => values
  | NullRecord => None
  end.

(** [record.id], which the two loops read only from an element that has
    a field map; reading it from [null] throws (see [fetch_loop]), and the
    value given here for [null] is never used by the code. *)
Definition r_id (rec : record) : string :=
  match rec with
  | mkRecord id _ => id
  | NullRecord => EmptyString
  end.

(** [values.key]: the property, or [undefined]. *)
Fixpoint field (key : string) (values : list (string * jsval)) : jsval :=
  match values with
  | [] => JUndefined
  | (k, v) :: rest => if String.eqb k key then v else field key rest
  end.

(** One element of the [updates] array: [{ id, values: recordUpdates }];
    [u_values] lists the properties of [recordUpdates] in assignment order,
    each of them an object [{ value: ... }]. *)
Record record_update : Type := mkUpdate {
  u_id : string;
  u_values : list (string * jsval)
}.

(** ** createRowSignature (listener.js, lines 502-515) *)

(** [Array.prototype.sort] without a comparator on an array of strings. *)
Fixpoint insert_sorted (x : string) (l : list string) : list string :=
  match l with
  | [] => [x]
  | y :: l' => if String.leb x y then x :: l else y :: insert_sorted x l'
  end.

Definition sort_strings (l : list string) : list string :=
  fold_right insert_sorted [] l.

Definition render_field (kv : string * jsval) : string :=
  fst kv +:+ ":" +:+ js_toString (unwrap (snd kv)).

Definition createRowSignature (values : list (string * jsval)) : string :=
  let fieldValues := map render_field values in
  String.concat "|" (sort_strings fieldValues).

(** ** The two passes of formatRecords (listener.js, lines 367-484) *)

(** First pass: [rowSignatures] counts the occurrences of every signature,
    [recordSignatures] maps a record id to its signature. *)
Definition first_pass_step (acc : gmap string nat * gmap string string)
    (rec : record) : gmap string nat * gmap string string :=
  match r_values rec with
  | None => acc
  | Some values =>
      let signature := createRowSignature values in
      (<[signature := default 0 (acc.1 !! signature) + 1]> acc.1,
       <[r_id rec := signature]> acc.2)
  end.

Definition first_pass (records : list record)
    : gmap string nat * gmap string string :=
  fold_left first_pass_step records (∅, ∅).

Definition duplicate_marker (duplicateCount : nat) : string :=
  "⚠️ Duplicate (" +:+ nat_to_string duplicateCount +:+ " total)".
Definition unique_marker : string := "✅ Unique".

(** The status string the second pass derives from an occurrence count. *)
Definition derived_status (duplicateCount : nat) : string :=
  if 1 <? duplicateCount then duplicate_marker duplicateCount
  else unique_marker.

Definition name_update (key : string) (values : list (string * jsval))
    : list (string * jsval) :=
  let name := unwrap (field key values) in
  if truthy name && is_string name then
    let formatted := toNameCase name in
    if negb (jsval_eqb_str name formatted)
    then [(key, JObj (JStr formatted))] else []
  else [].

Definition phone_update (values : list (string * jsval))
    : list (string * jsval) :=
  let phone := unwrap (field "phone" values) in
  if truthy phone then
    let formatted := formatPhoneNumber phone in
    if negb (String.eqb formatted (js_toString phone))
    then [("phone", JObj (JStr formatted))] else []
  else [].

Definition usa_update (values : list (string * jsval))
    : list (string * jsval) :=
  let phone := unwrap (field "phone" values) in
  if truthy phone then
    let isUSA := isUSANumber phone in
    let currentUSAValue := unwrap (field "isUSANumber" values) in
    if negb (jsval_eqb_bool currentUSAValue isUSA)
    then [("isUSANumber", JObj (JBool isUSA))] else []
  else [].

(** The signature the second pass finds for a record, when it is truthy. *)
Definition signature_of (recordSignatures : gmap string string)
    (rec : record) : option string :=
  match recordSignatures !! r_id rec with
  | Some signature => if String.eqb signature "" then None else Some signature
  | None => None
  end.

(** The [duplicateStatus] string the second pass derives for a record;
    nothing when the record has no truthy signature. *)
Definition duplicate_status (rowSignatures : gmap string nat)
    (recordSignatures : gmap string string) (rec : record) : option string :=
  match signature_of recordSignatures rec with
  | Some signature =>
      let duplicateCount := default 0 (rowSignatures !! signature) in
      Some (derived_status duplicateCount)
  | None => None
  end.

Definition duplicate_update (rowSignatures : gmap string nat)
    (recordSignatures : gmap string string) (rec : record)
    (values : list (string * jsval)) : list (string * jsval) :=
  match duplicate_status rowSignatures recordSignatures rec with
  | Some duplicateStatus =>
      let currentDuplicateStatus := unwrap (field "duplicateStatus" values) in
      if negb (jsval_eqb_str currentDuplicateStatus duplicateStatus)
      then [("duplicateStatus", JObj (JStr duplicateStatus))] else []
  | None => []
  end.

(** The body of the second loop for one record: [recordUpdates], or
    nothing for a record the loop skips. *)
Definition record_updates (rowSignatures : gmap string nat)
    (recordSignatures : gmap string string) (rec : record)
    : option (list (string * jsval)) :=
  match r_values rec with
  | None => None
  | Some values =>
      Some (name_update "firstName" values ++ name_update "lastName" values
            ++ phone_update values ++ usa_update values
            ++ duplicate_update rowSignatures recordSignatures rec values)
  end.

Definition second_pass (rowSignatures : gmap string nat)
    (recordSignatures : gmap string string) (records : list record)
    : list record_update :=
  flat_map (fun rec =>
    match record_updates rowSignatures recordSignatures rec with
    | Some (kv :: kvs) => [mkUpdate (r_id rec) (kv :: kvs)]
    | _ => []
    end) records.

(** The [updates] array formatRecords builds from the fetched records. *)
Definition compute_updates (records : list record) : list record_update :=
  let signatures := first_pass records in
  let rowSignatures := signatures.1 in
  let recordSignatures := signatures.2 in
  second_pass rowSignatures recordSignatures records.

(** ** The retry loop and formatRecords (listener.js, lines 294-499) *)

(** A response of [api.records.get]: its records are found under
    [data.records], under [data], or not at all. *)
Inductive response : Type :=
| Nested (records : list record)
| TopLevel (records : list record)
| OtherShape.

(** What one call of [api.records.get] does: it rejects with an error or
    resolves to a response. *)
Inductive get_result : Type :=
| GetThrows (message : string)
| GetResolves (r : response).

(** The value assigned to [records] from a response. *)
Definition response_records (r : response) : list record :=
  match r with
  | Nested records => records
  | TopLevel records => records
  | OtherShape => []
  end.

(** The record store: the answer to the [n]-th call of [get] (counted from
    0) and the answer to [update], [Some message] when it rejects. *)
Record store : Type := mkStore {
  store_get : nat -> get_result;
  store_update : list record_update -> option string
}.

(** What a run does to the outside world, in order: a call of
    [api.records.get], the logged failure of an attempt, a wait of [ms]
    milliseconds, the message that no records were found, a call of
    [api.records.update]. *)
Inductive event : Type :=
| EvGet (call : nat)
| EvAttemptFailed (attempt : nat) (message : string)
| EvWait (ms : nat)
| EvNoRecords
| EvUpdate (updates : list record_update).

Definition maxAttempts : nat := 5.

(** The message of the [TypeError] thrown by [records[0].id] when the
    first element is [null] (as V8 words it). *)
Definition null_id_error : string :=
  "Cannot read properties of null (reading 'id')".

(** [while (attempts < maxAttempts) { ... }]; one unit of [fuel] per
    iteration.  The [k]-th iteration makes the [k]-th call of the store.
    Inside the [try] block the call can throw, and so can the logging of
    the first record, which reads [records[0].id] after [records] has been
    assigned: on a list whose first element is [null] the attempt is
    caught as failed and the list is kept. *)
Fixpoint fetch_loop (fuel : nat) (get : nat -> get_result)
    (records : list record) (attempts : nat) (trace : list event)
    : option (list record * list event) :=
  if attempts <? maxAttempts then
    match fuel with
    | O => None
    | S fuel' =>
        let trace := trace ++ [EvGet attempts] in
        let next (records : list record) (trace : list event) :=
          let attempts := attempts + 1 in
          let trace :=
            if attempts <? maxAttempts then trace ++ [EvWait 2000] else trace in
          fetch_loop fuel' get records attempts trace in
        match get attempts with
        | GetResolves r =>
            let records := response_records r in
            match records with
            | [] => next records trace
            | mkRecord _ _ :: _ => Some (records, trace)
            | NullRecord :: _ =>
                next records
                     (trace ++ [EvAttemptFailed (attempts + 1) null_id_error])
            end
        | GetThrows message =>
            next records (trace ++ [EvAttemptFailed (attempts + 1) message])
        end
    end
  else Some (records, trace).

Definition fetchRecords (get : nat -> get_result)
    : option (list record * list event) :=
  fetch_loop maxAttempts get [] 0 [].

Inductive completion : Type :=
| Returned
| Threw (message : string).

Definition formatRecords (st : store) : option (completion * list event) :=
  match fetchRecords (store_get st) with
  | None => None
  | Some (records, trace) =>
      if length records =? 0 then Some (Returned, trace ++ [EvNoRecords])
      else
        let updates := compute_updates records in
        if 0 <? length updates then
          match store_update st updates with
          | Some message => Some (Threw message, trace ++ [EvUpdate updates])
          | None => Some (Returned, trace ++ [EvUpdate updates])
          end
        else Some (Returned, trace)
  end.

(** ** The store after a batch update *)

Fixpoint set_field (key : string) (v : jsval) (values : list (string * jsval))
    : list (string * jsval) :=
  match values with
  | [] => [(key, v)]
  | (k, w) :: rest =>
      if String.eqb k key then (k, v) :: rest
      else (k, w) :: set_field key v rest
  end.

Definition set_fields (kvs values : list (string * jsval))
    : list (string * jsval) :=
  fold_left (fun vs kv => set_field (fst kv) (snd kv) vs) kvs values.

Definition apply_update (rec : record) (u : record_update) : record :=
  if String.eqb (u_id u) (r_id rec) then
    mkRecord (r_id rec) (Some (set_fields (u_values u) (default [] (r_values rec))))
  else rec.

(** Modelled from the spec: the record store's batch update, which is
    outside the repository.  Every update is applied to the record that
    carries its id, each updated field being stored as the wrapper object
    the update holds; the other fields and records are left as they are. *)
Definition apply_updates (updates : list record_update)
    (records : list record) : list record :=
  map (fun rec => fold_left apply_update updates rec) records.

(** ** Notions used in the statements *)

Fixpoint str_forallb (p : ascii -> bool) (s : string) : bool :=
  match s with
  | EmptyString => true
  | String c s' => p c && str_forallb p s'
  end.

(** The display form [+1 (AAA) PPP-LLLL], and the one built from the
    first three, next three and last four digits of a ten-digit string. *)
Definition nanp (area prefix line : string) : string :=
  "+1 (" +:+ area +:+ ") " +:+ prefix +:+ "-" +:+ line.

Definition nanp_form (d : string) : string :=
  nanp (slice 0 3 d) (slice 3 6 d) (slice 6 10 d).

(** The value a field currently stores: the one under the wrapper, or the
    bare one. *)
Definition stored_value (x : jsval) : jsval :=
  match x with JObj v => v | _ => x end.

(** The signatures the first pass computes, in record order. *)
Definition batch_signatures (records : list record) : list string :=
  flat_map (fun rec => match r_values rec with
                       | Some values => [createRowSignature values]
                       | None => []
                       end) records.

Definition occurrences (s : string) (records : list record) : nat :=
  length (List.filter (String.eqb s) (batch_signatures records)).

(** The records one call of the store yields: none when it rejects. *)
Definition attempt_yield (g : get_result) : list record :=
  match g with
  | GetThrows _ => []
  | GetResolves r => response_records r
  end.

(** Whether a fetched list ends the retry loop: it is not empty and its
    first element is a record object. *)
Definition starts_with_record (records : list record) : bool :=
  match records with
  | mkRecord _ _ :: _ => true
  | _ => false
  end.

(** The value of [records] once the first [n] attempts have all failed:
    the list of the last call that resolved. *)
Fixpoint kept_records (get : nat -> get_result) (n : nat) : list record :=
  match n with
  | O => []
  | S m =>
      match get m with
      | GetThrows _ => kept_records get m
      | GetResolves r => response_records r
      end
  end.

(** What a failed attempt leaves in the trace: the call, the logged
    failure when the store rejected or the first element was [null], and
    the wait unless the attempt was the last one. *)
Definition failed_attempt_events (get : nat -> get_result) (k : nat)
    : list event :=
  EvGet k
  :: match get k with
     | GetThrows message => [EvAttemptFailed (k + 1) message]
     | GetResolves r =>
         match response_records r with
         | NullRecord :: _ => [EvAttemptFailed (k + 1) null_id_error]
         | _ => []
         end
     end
  ++ (if k + 1 <? maxAttempts then [EvWait 2000] else []).

Definition is_get (e : event) : bool :=
  match e with EvGet _ => true | _ => false end.
Definition is_wait (e : event) : bool :=
  match e with EvWait _ => true | _ => false end.
Definition is_update (e : event) : bool :=
  match e with EvUpdate _ => true | _ => false end.

(** The field map of a record, empty when it is missing. *)
Definition field_map (rec : record) : list (string * jsval) :=
  default [] (r_values rec).

(** ** The Contacts sheet and the job handler (listener.js, lines 137-168
    and 250-291) *)

(** The fields of the Contacts sheet created with the space: key and
    type. *)
Definition contacts_fields : list (string * string) :=
  [("firstName", "string"); ("lastName", "string"); ("email", "string");
   ("phone", "string"); ("isUSANumber", "boolean");
   ("duplicateStatus", "string")].

(** The job API: what [api.jobs.ack], [api.jobs.complete] and
    [api.jobs.fail] answer, [Some message] when the call rejects. *)
Record jobs : Type := mkJobs {
  jobs_ack : option string;
  jobs_complete : option string;
  jobs_fail : option string
}.

(** What the handler of the "Format Data Now" action does, in order: the
    three job calls, the logged failure of [api.jobs.fail], and the events
    of formatRecords. *)
Inductive job_event : Type :=
| JobAck
| JobComplete (message : string)
| JobFail (message : string)
| JobFailError (message : string)
| Pipeline (e : event).

(** The [catch] block of the handler: the job is marked failed with the
    error's message, and a rejection of that call is only logged. *)
Definition report_failure (api : jobs) (message : string) : list job_event :=
  JobFail ("❌ Formatting failed: " +:+ message)
  :: match jobs_fail api with
     | Some failError => [JobFailError failError]
     | None => []
     end.

(** The handler of [job:ready] for
    [workbook:formatDataActionForeground]. *)
Definition formatDataAction (api : jobs) (st : store)
    : option (list job_event) :=
  match jobs_ack api with
  | Some message => Some (JobAck :: report_failure api message)
  | None =>
      match formatRecords st with
      | None => None
      | Some (Threw message, trace) =>
          Some (JobAck :: map Pipeline trace ++ report_failure api message)
      | Some (Returned, trace) =>
          let done := JobComplete "✅ Data formatting completed successfully!" in
          match jobs_complete api with
          | Some message =>
              Some (JobAck :: map Pipeline trace
                    ++ done :: report_failure api message)
          | None => Some (JobAck :: map Pipeline trace ++ [done])
          end
      end
  end.

(** ** Further notions used in the statements *)

(** A string of ASCII characters, on which [toLowerCase] and the
    character classes are those of JavaScript. *)
Definition is_ascii (s : string) : bool :=
  str_forallb (fun c => code c <? 128) s.

(** A record is assigned a status string by a run when its
    [duplicateStatus] field already reads as that string, or the batch
    carries an update of the record setting the field to it. *)
Definition assigned_status (records : list record) (rec : record)
    (status : string) : Prop :=
  (exists values, r_values rec = Some values
                  /\ unwrap (field "duplicateStatus" values) = JStr status)
  \/ exists u, In u (compute_updates records)
               /\ u_id u = r_id rec
               /\ In ("duplicateStatus", JObj (JStr status)) (u_values u).

(** A value that is not an object. *)
Definition is_primitive (v : jsval) : bool :=
  match v with JObj _ => false | _ => true end.

(** The field map with every value put in a wrapper object. *)
Definition wrap_all (values : list (string * jsval)) : list (string * jsval) :=
  map (fun kv => (fst kv, JObj (snd kv))) values.

(** The digit rule shared by the formatter and the classifier: ten digits,
    or eleven digits with a leading 1. *)
Definition nanp_digits (d : string) : bool :=
  (String.length d =? 10)
  || ((String.length d =? 11) && startsWith "1" d).

Definition is_job_fail (e : job_event) : bool :=
  match e with JobFail _ => true | _ => false end.
Definition is_job_complete (e : job_event) : bool :=
  match e with JobComplete _ => true | _ => false end.

(** * Properties *)

(** ** Strings *)

Lemma str_filter_forallb p s : str_forallb p (str_filter p s) = true.
Proof.
  induction s as [|c s IH]; simpl; [reflexivity|].
  destruct (p c) eqn:E; simpl; [rewrite E|]; exact IH.
Qed.

Lemma str_filter_id p s : str_forallb p s = true -> str_filter p s = s.
Proof.
  induction s as [|c s IH]; simpl; [reflexivity|].
  intros [Hc Hs]%andb_prop. rewrite Hc, IH; auto.
Qed.

Lemma Z_to_string_no_plus z : startsWith "+" (Z_to_string z) = false.
Proof.
  unfold Z_to_string.
  destruct z as [|p|p]; simpl; try reflexivity.
  destruct (Pos.to_uint p); reflexivity.
Qed.

(** A value whose string form starts with [+] is a non-empty string. *)
Lemma plus_prefix_truthy phone :
  startsWith "+" (js_toString phone) = true -> truthy phone = true.
Proof.
  destruct phone as [| |[|]|z|s|v]; intros H; try discriminate H;
    try reflexivity.
  - change (js_toString (JNum z)) with (Z_to_string z) in H.
    rewrite Z_to_string_no_plus in H. discriminate H.
  - destruct s; [discriminate H | reflexivity].
Qed.

(** ** Phone formatting *)

(** A string of known length is a known number of characters. *)
Ltac string_of_length H :=
  repeat match type of H with
         | String.length ?d = _ =>
             destruct d as [|? d]; simpl in H; [try discriminate H|]
         | S _ = S _ => apply Nat.succ_inj in H
         | S _ = O => discriminate H
         | O = S _ => discriminate H
         end.

Lemma format_ten_digits phone :
  truthy phone = true ->
  String.length (strip_non_digits (js_toString phone)) = 10 ->
  formatPhoneNumber phone = nanp_form (strip_non_digits (js_toString phone)).
Proof.
  intros Ht Hlen. unfold formatPhoneNumber.
  rewrite Ht. simpl negb. cbv iota.
  destruct (strip_non_digits (js_toString phone)) as [|c0 d]; [discriminate|].
  simpl in Hlen. apply Nat.succ_inj in Hlen.
  string_of_length Hlen.
  reflexivity.
Qed.

Lemma format_eleven_digits phone d :
  truthy phone = true ->
  strip_non_digits (js_toString phone) = String "1" d ->
  String.length d = 10 ->
  formatPhoneNumber phone = nanp_form d.
Proof.
  intros Ht Hd Hlen. unfold formatPhoneNumber.
  rewrite Ht, Hd. simpl negb. cbv iota.
  string_of_length Hlen.
  reflexivity.
Qed.

Lemma digits_of_nanp_form d :
  String.length d = 10 -> str_forallb is_digit d = true ->
  strip_non_digits (nanp_form d) = String "1" d.
Proof.
  intros Hlen Hd. string_of_length Hlen.
  simpl in Hd.
  repeat (apply andb_prop in Hd; destruct Hd as [?H Hd]).
  unfold nanp_form, nanp, strip_non_digits, slice. simpl.
  change (is_digit "+") with false. change (is_digit "1") with true.
  change (is_digit " ") with false. change (is_digit "(") with false.
  change (is_digit ")") with false. change (is_digit "-") with false.
  cbv iota.
  repeat match goal with H : is_digit _ = true |- _ => rewrite H; clear H end.
  reflexivity.
Qed.

Lemma nanp_form_fixed d :
  String.length d = 10 -> str_forallb is_digit d = true ->
  formatPhoneNumber (JStr (nanp_form d)) = nanp_form d.
Proof.
  intros Hlen Hd.
  apply (format_eleven_digits (JStr (nanp_form d)) d); auto.
  now apply digits_of_nanp_form.
Qed.

(** The formatter's output is a fixed point of the formatter. *)
Lemma formatPhoneNumber_output_fixed (phone : jsval) :
  formatPhoneNumber (JStr (formatPhoneNumber phone)) = formatPhoneNumber phone.
Proof.
  destruct (truthy phone) eqn:Ht.
  2:{ assert (formatPhoneNumber phone = "") as ->; [|reflexivity].
      unfold formatPhoneNumber. now rewrite Ht. }
  pose proof (str_filter_forallb is_digit (js_toString phone)) as Hdig.
  fold (strip_non_digits (js_toString phone)) in Hdig.
  destruct (String.length (strip_non_digits (js_toString phone)) =? 10) eqn:H10.
  { apply Nat.eqb_eq in H10.
    rewrite (format_ten_digits phone Ht H10). now apply nanp_form_fixed. }
  destruct ((String.length (strip_non_digits (js_toString phone)) =? 11)
            && startsWith "1" (strip_non_digits (js_toString phone))) eqn:H11.
  { apply andb_prop in H11. destruct H11 as [Hlen H1].
    apply Nat.eqb_eq in Hlen.
    destruct (strip_non_digits (js_toString phone)) as [|c d] eqn:Hd;
      [discriminate|].
    assert (c = "1"%char) as ->.
    { simpl in H1. rewrite andb_true_r in H1.
      symmetry. now apply Ascii.eqb_eq. }
    simpl in Hlen. apply Nat.succ_inj in Hlen.
    assert (Hd10 : str_forallb is_digit d = true)
      by (change (is_digit "1" && str_forallb is_digit d = true) in Hdig;
          now apply andb_prop in Hdig).
    rewrite (format_eleven_digits phone d Ht Hd Hlen).
    now apply nanp_form_fixed. }
  assert (Hstep : forall q, truthy q = true ->
            strip_non_digits (js_toString q) = strip_non_digits (js_toString phone) ->
            formatPhoneNumber q =
              if startsWith "+" (js_toString q) then js_toString q
              else "+" +:+ strip_non_digits (js_toString phone)).
  { intros q Hq Heq. unfold formatPhoneNumber. rewrite Hq, Heq, H10, H11.
    reflexivity. }
  rewrite (Hstep phone Ht eq_refl).
  destruct (startsWith "+" (js_toString phone)) eqn:Hplus.
  - destruct phone as [| |[|]|z|s|v]; try discriminate Hplus.
    + change (js_toString (JNum z)) with (Z_to_string z) in Hplus.
      rewrite Z_to_string_no_plus in Hplus. discriminate Hplus.
    + simpl js_toString in *. rewrite (Hstep (JStr s) Ht eq_refl).
      simpl js_toString. now rewrite Hplus.
  - rewrite Hstep.
    + reflexivity.
    + reflexivity.
    + change (str_filter is_digit
                (String "+" (strip_non_digits (js_toString phone)))
              = strip_non_digits (js_toString phone)).
      simpl. apply (str_filter_id is_digit), Hdig.
Qed.

(** C7.  Formatting a phone value twice gives what formatting it once
    gives: [formatPhoneNumber (formatPhoneNumber p) = formatPhoneNumber p]
    for every value [p]. *)
Theorem formatPhoneNumber_idempotent (phone : jsval) :
  formatPhoneNumber (JStr (formatPhoneNumber phone)) = formatPhoneNumber phone.
Proof. exact (formatPhoneNumber_output_fixed phone). Qed.

(** C3, as the code has it.  A phone value whose string form starts with
    [+] is returned unchanged when its digit string has neither ten digits
    nor eleven digits with a leading [1]; the two digit-length rules are
    tested before the [+] rule. *)
Theorem formatPhoneNumber_plus_unchanged (phone : jsval) :
  startsWith "+" (js_toString phone) = true ->
  String.length (strip_non_digits (js_toString phone)) <> 10 ->
  ~ (String.length (strip_non_digits (js_toString phone)) = 11
     /\ startsWith "1" (strip_non_digits (js_toString phone)) = true) ->
  formatPhoneNumber phone = js_toString phone.
Proof.
  intros Hplus H10 H11.
  unfold formatPhoneNumber.
  rewrite (plus_prefix_truthy phone Hplus). simpl negb. cbv iota.
  apply Nat.eqb_neq in H10. rewrite H10.
  destruct (_ && _) eqn:E.
  - exfalso. apply H11. apply andb_prop in E. destruct E as [E1 E2].
    apply Nat.eqb_eq in E1. auto.
  - now rewrite Hplus.
Qed.

Lemma formatPhoneNumber_plus_unchanged_witness :
  formatPhoneNumber (JStr "+44 20 7946 0958") = "+44 20 7946 0958".
Proof.
  apply (formatPhoneNumber_plus_unchanged (JStr "+44 20 7946 0958")).
  - reflexivity.
  - vm_compute. lia.
  - vm_compute. intros [H _]. lia.
Defined.

(** C3 as stated fails: [+15551234567] starts with [+] and is reformatted. *)
Lemma formatPhoneNumber_plus_reformatted :
  startsWith "+" (js_toString (JStr "+15551234567")) = true /\
  formatPhoneNumber (JStr "+15551234567") = "+1 (555) 123-4567" /\
  formatPhoneNumber (JStr "+15551234567") <> js_toString (JStr "+15551234567").
Proof. repeat split. vm_compute. discriminate. Qed.

Lemma startsWith_one d :
  startsWith "1" d = true -> d = String "1" (slice_from 1 d).
Proof.
  destruct d as [|c d]; intros H; [discriminate H|].
  change (Ascii.eqb "1" c && true = true) in H.
  rewrite andb_true_r in H. apply Ascii.eqb_eq in H. now subst c.
Qed.

(** C9, as the code has it.  For a non-empty (truthy) phone value whose
    string form does not start with [+], with digit string [D]: ten digits
    give [+1 (AAA) PPP-LLLL] from the first three, next three and last four
    digits of [D]; eleven digits with a leading [1] give the same form from
    digits 2-4, 5-7 and 8-11; every other digit string gives [+] followed
    by [D].  "5551234567" and "15551234567" both give "+1 (555) 123-4567",
    and "123" gives "+123". *)
Theorem formatPhoneNumber_digit_rules (phone : jsval) :
  truthy phone = true ->
  startsWith "+" (js_toString phone) = false ->
  let D := strip_non_digits (js_toString phone) in
  (String.length D = 10 ->
     formatPhoneNumber phone = nanp (slice 0 3 D) (slice 3 6 D) (slice 6 10 D))
  /\ (String.length D = 11 -> startsWith "1" D = true ->
     formatPhoneNumber phone = nanp (slice 1 4 D) (slice 4 7 D) (slice 7 11 D))
  /\ (String.length D <> 10 ->
      ~ (String.length D = 11 /\ startsWith "1" D = true) ->
     formatPhoneNumber phone = "+" +:+ D)
  /\ formatPhoneNumber (JStr "5551234567") = "+1 (555) 123-4567"
  /\ formatPhoneNumber (JStr "15551234567") = "+1 (555) 123-4567"
  /\ formatPhoneNumber (JStr "123") = "+123".
Proof.
  intros Ht Hplus D. repeat split.
  - intros H10. exact (format_ten_digits phone Ht H10).
  - intros H11 H1. apply startsWith_one in H1.
    assert (Hlen : String.length (slice_from 1 D) = 10).
    { rewrite H1 in H11. simpl in H11. now apply Nat.succ_inj in H11. }
    rewrite (format_eleven_digits phone (slice_from 1 D) Ht H1 Hlen).
    rewrite H1 at 2 3 4. reflexivity.
  - intros H10 H11. unfold formatPhoneNumber. rewrite Ht. simpl negb. cbv iota.
    fold D. apply Nat.eqb_neq in H10. rewrite H10.
    destruct (_ && _) eqn:E.
    + exfalso. apply H11. apply andb_prop in E. destruct E as [E1 E2].
      apply Nat.eqb_eq in E1. auto.
    + now rewrite Hplus.
Qed.

Lemma formatPhoneNumber_digit_rules_witness :
  formatPhoneNumber (JStr "(555) 123-4567") = nanp "555" "123" "4567" /\
  formatPhoneNumber (JNum 15551234567) = nanp "555" "123" "4567" /\
  formatPhoneNumber (JStr "44 20 7946 0958") = "+442079460958".
Proof.
  split; [|split].
  - apply (formatPhoneNumber_digit_rules (JStr "(555) 123-4567")); reflexivity.
  - apply (formatPhoneNumber_digit_rules (JNum 15551234567)); reflexivity.
  - apply (formatPhoneNumber_digit_rules (JStr "44 20 7946 0958"));
      [reflexivity | reflexivity | vm_compute; lia | vm_compute; lia].
Defined.

(** C9 as stated fails on the empty string: its digit string is empty, so
    the claim gives "+", and the code gives the empty string. *)
Lemma formatPhoneNumber_empty_not_plus :
  startsWith "+" (js_toString (JStr "")) = false /\
  String.length (strip_non_digits (js_toString (JStr ""))) = 0 /\
  formatPhoneNumber (JStr "") = "" /\
  formatPhoneNumber (JStr "") <> "+" +:+ strip_non_digits (js_toString (JStr "")).
Proof. repeat split. vm_compute. discriminate. Qed.

(** ** USA classification *)

(** C6.  The classification is true for "5551234567", "15551234567" and
    "+1 (555) 123-4567"; it is false for "+44 20 7946 0958", for
    "+1234567890123" (more than ten characters after "+1"), and for empty
    or absent input. *)
Theorem isUSANumber_table :
  isUSANumber (JStr "5551234567") = true /\
  isUSANumber (JStr "15551234567") = true /\
  isUSANumber (JStr "+1 (555) 123-4567") = true /\
  isUSANumber (JStr "+44 20 7946 0958") = false /\
  isUSANumber (JStr "+1234567890123") = false /\
  (10 <? String.length (str_drop 2 "+1234567890123")) = true /\
  isUSANumber (JStr "") = false /\
  isUSANumber JUndefined = false /\
  isUSANumber JNull = false.
Proof. repeat split. Qed.

(** ** Name casing *)

(** C5.  The claim fails on names with letters outside ASCII.  The word
    boundaries of the regular expression [\b\w] are those of the ASCII
    word characters, so a letter such as u-umlaut, e-acute or i-acute ends
    a word and the ASCII letter after it is capitalised in the middle of
    the name; "DANIELLE ADAMS" still gives "Danielle Adams". *)
Theorem toNameCase_capital_after_non_ascii_letter :
  toNameCase (JStr "müller") = "MüLler"
  /\ toNameCase (JStr "müller") <> "Müller"
  /\ toNameCase (JStr "josé maría") = "José MaríA"
  /\ toNameCase (JStr "DANIELLE ADAMS") = "Danielle Adams".
Proof.
  split; [reflexivity|]. split; [vm_compute; discriminate|].
  split; reflexivity.
Qed.

(** ** The USA flag *)

Lemma unwrap_not_bool x b :
  stored_value x <> JBool b -> jsval_eqb_bool (unwrap x) b = false.
Proof.
  intros H. destruct x as [| |c|z|t|v]; try reflexivity.
  - simpl in *. destruct (Bool.eqb c b) eqn:E; [|reflexivity].
    apply Bool.eqb_prop in E. now subst.
  - unfold unwrap, js_or. simpl opt_value. simpl in H.
    destruct (truthy v); [|reflexivity].
    destruct v as [| |c|z|t|w]; try reflexivity.
    simpl. destruct (Bool.eqb c b) eqn:E; [|reflexivity].
    apply Bool.eqb_prop in E. now subst.
Qed.

Lemma second_pass_in rowSignatures recordSignatures records rec kv kvs :
  In rec records ->
  record_updates rowSignatures recordSignatures rec = Some (kv :: kvs) ->
  In (mkUpdate (r_id rec) (kv :: kvs))
     (second_pass rowSignatures recordSignatures records).
Proof.
  intros Hin Hrec. unfold second_pass. apply in_flat_map.
  exists rec. split; [assumption|]. rewrite Hrec. now left.
Qed.

(** C4, as the code has it.  For every processed record whose phone value
    is non-empty (truthy), the second pass emits an [isUSANumber] update
    carrying the computed classification whenever that classification
    differs from the stored [isUSANumber] value, and also when the field is
    absent. *)
Theorem usa_flag_update_emitted
    (rowSignatures : gmap string nat) (recordSignatures : gmap string string)
    (records : list record) (rec : record) (values : list (string * jsval)) :
  In rec records ->
  r_values rec = Some values ->
  truthy (unwrap (field "phone" values)) = true ->
  field "isUSANumber" values = JUndefined
  \/ stored_value (field "isUSANumber" values)
       <> JBool (isUSANumber (unwrap (field "phone" values))) ->
  exists u,
    In u (second_pass rowSignatures recordSignatures records)
    /\ u_id u = r_id rec
    /\ In ("isUSANumber",
           JObj (JBool (isUSANumber (unwrap (field "phone" values)))))
          (u_values u).
Proof.
  intros Hin Hvals Hphone Hdiff.
  assert (Hne : stored_value (field "isUSANumber" values)
                <> JBool (isUSANumber (unwrap (field "phone" values)))).
  { destruct Hdiff as [Habs | Hne]; [rewrite Habs; discriminate | exact Hne]. }
  assert (Husa : usa_update values =
                 [("isUSANumber",
                   JObj (JBool (isUSANumber (unwrap (field "phone" values)))))]).
  { unfold usa_update. rewrite Hphone, (unwrap_not_bool _ _ Hne). reflexivity. }
  destruct (record_updates rowSignatures recordSignatures rec) as [kvs|] eqn:Hrec.
  2:{ unfold record_updates in Hrec. rewrite Hvals in Hrec. discriminate. }
  assert (Hk : In ("isUSANumber",
                    JObj (JBool (isUSANumber (unwrap (field "phone" values)))))
                  kvs).
  { unfold record_updates in Hrec. rewrite Hvals, Husa in Hrec.
    injection Hrec as <-. do 3 (apply in_or_app; right). now left. }
  destruct kvs as [|kv kvs]; [destruct Hk|].
  exists (mkUpdate (r_id rec) (kv :: kvs)). split; [|split].
  - now apply second_pass_in.
  - reflexivity.
  - exact Hk.
Qed.

Lemma usa_flag_update_emitted_witness :
  exists u,
    In u (second_pass ∅ ∅ [mkRecord "r1" (Some [("phone", JStr "5551234567")])])
    /\ u_id u = "r1"
    /\ In ("isUSANumber", JObj (JBool true)) (u_values u).
Proof.
  apply (usa_flag_update_emitted ∅ ∅
           [mkRecord "r1" (Some [("phone", JStr "5551234567")])]
           (mkRecord "r1" (Some [("phone", JStr "5551234567")]))
           [("phone", JStr "5551234567")]).
  - left; reflexivity.
  - reflexivity.
  - reflexivity.
  - left; reflexivity.
Defined.

(** C4 as stated fails: a processed record whose phone is empty and whose
    stored flag is true is classified false, yet no [isUSANumber] update
    is emitted for it. *)
Lemma usa_flag_not_updated_without_phone :
  let values := [("firstName", JStr "Ann"); ("phone", JStr "");
                 ("isUSANumber", JObj (JBool true))] in
  isUSANumber (unwrap (field "phone" values)) = false
  /\ stored_value (field "isUSANumber" values) = JBool true
  /\ forall u, In u (compute_updates [mkRecord "r1" (Some values)]) ->
               ~ In "isUSANumber" (map fst (u_values u)).
Proof.
  split; [reflexivity | split; [reflexivity|]].
  vm_compute. intros u [<- | []] [H | []]. discriminate H.
Qed.

Lemma record_updates_in rowSignatures recordSignatures rec values kv :
  r_values rec = Some values ->
  (exists kvs, record_updates rowSignatures recordSignatures rec = Some kvs
               /\ In kv kvs)
  <-> In kv (name_update "firstName" values)
      \/ In kv (name_update "lastName" values)
      \/ In kv (phone_update values)
      \/ In kv (usa_update values)
      \/ In kv (duplicate_update rowSignatures recordSignatures rec values).
Proof.
  intros Hv. unfold record_updates. rewrite Hv. split.
  - intros (kvs & [= <-] & Hin). now rewrite !in_app_iff in Hin.
  - intros H. eexists. split; [reflexivity|]. now rewrite !in_app_iff.
Qed.

(** Whatever a record needs is in the batch, under the record's id. *)
Lemma record_update_present records rec values kv :
  In rec records -> r_values rec = Some values ->
  In kv (name_update "firstName" values)
  \/ In kv (name_update "lastName" values)
  \/ In kv (phone_update values)
  \/ In kv (usa_update values)
  \/ In kv (duplicate_update (first_pass records).1 (first_pass records).2
              rec values) ->
  exists u, In u (compute_updates records)
            /\ u_id u = r_id rec /\ In kv (u_values u).
Proof.
  intros Hin Hv Hkv.
  destruct (proj2 (record_updates_in (first_pass records).1
                     (first_pass records).2 rec values kv Hv) Hkv)
    as (kvs & Hr & Hk).
  destruct kvs as [|kv0 kvs]; [destruct Hk|].
  exists (mkUpdate (r_id rec) (kv0 :: kvs)). repeat split; [|exact Hk].
  unfold compute_updates. now apply second_pass_in.
Qed.

Lemma jsval_eqb_str_true x s : jsval_eqb_str x s = true -> x = JStr s.
Proof.
  destruct x; try discriminate. simpl. now intros ->%String.eqb_eq.
Qed.

(** The status the second pass derives for a record is assigned to it. *)
Lemma derived_status_assigned records rec values status :
  In rec records -> r_values rec = Some values ->
  duplicate_status (first_pass records).1 (first_pass records).2 rec
  = Some status ->
  assigned_status records rec status.
Proof.
  intros Hin Hv Hs.
  destruct (jsval_eqb_str (unwrap (field "duplicateStatus" values)) status)
    eqn:E.
  - left. exists values. split; [exact Hv|]. now apply jsval_eqb_str_true.
  - right. apply (record_update_present records rec values _ Hin Hv).
    do 4 right. unfold duplicate_update. rewrite Hs, E. now left.
Qed.

(** ** Row signatures *)

Lemma string_leb_trans a b c :
  String.leb a b = true -> String.leb b c = true -> String.leb a c = true.
Proof.
  unfold String.leb.
  revert b c; induction a as [|x a IH]; intros [|y b] [|z c]; simpl;
    try reflexivity; try discriminate.
  unfold Ascii.compare.
  destruct (N.compare_spec (N_of_ascii x) (N_of_ascii y)) as [Hxy|Hxy|Hxy];
  destruct (N.compare_spec (N_of_ascii y) (N_of_ascii z)) as [Hyz|Hyz|Hyz];
  destruct (N.compare_spec (N_of_ascii x) (N_of_ascii z)) as [Hxz|Hxz|Hxz];
    try reflexivity; try discriminate; try (exfalso; lia).
  apply IH.
Qed.

Lemma insert_sorted_comm x y l :
  insert_sorted x (insert_sorted y l) = insert_sorted y (insert_sorted x l).
Proof.
  induction l as [|c l IH]; simpl.
  - destruct (String.leb x y) eqn:Hxy, (String.leb y x) eqn:Hyx; try reflexivity.
    + now rewrite (String.leb_antisym x y Hxy Hyx).
    + destruct (String.leb_total x y); congruence.
  - destruct (String.leb y c) eqn:Hyc, (String.leb x c) eqn:Hxc; simpl;
      rewrite ?Hyc, ?Hxc.
    + destruct (String.leb x y) eqn:Hxy, (String.leb y x) eqn:Hyx;
        try reflexivity.
      * now rewrite (String.leb_antisym x y Hxy Hyx).
      * destruct (String.leb_total x y); congruence.
    + destruct (String.leb x y) eqn:Hxy; [|reflexivity].
      rewrite (string_leb_trans x y c Hxy Hyc) in Hxc. discriminate.
    + destruct (String.leb y x) eqn:Hyx; [|reflexivity].
      rewrite (string_leb_trans y x c Hyx Hxc) in Hyc. discriminate.
    + now rewrite IH.
Qed.

Lemma sort_strings_permutation l1 l2 :
  Permutation l1 l2 -> sort_strings l1 = sort_strings l2.
Proof.
  induction 1 as [|x l1 l2 _ IH|x y l|l1 l2 l3 _ IH1 _ IH2]; simpl.
  - reflexivity.
  - now rewrite IH.
  - apply insert_sorted_comm.
  - now rewrite IH1.
Qed.

(** Signature order-invariance: the field order does not matter. *)
Lemma createRowSignature_permutation v1 v2 :
  Permutation v1 v2 -> createRowSignature v1 = createRowSignature v2.
Proof.
  intros H. unfold createRowSignature.
  now rewrite (sort_strings_permutation _ _ (Permutation_map render_field H)).
Qed.

Lemma insert_sorted_head x l :
  exists y l', insert_sorted x l = y :: l' /\ (y = x \/ In y l).
Proof.
  destruct l as [|c l]; simpl.
  - exists x, []. auto.
  - destruct (String.leb x c).
    + exists x, (c :: l). auto.
    + exists c, (insert_sorted x l). split; [reflexivity | right; now left].
Qed.

Lemma insert_sorted_in x y l :
  In y (insert_sorted x l) -> y = x \/ In y l.
Proof.
  induction l as [|c l IH]; simpl.
  - intros [<- | []]. now left.
  - destruct (String.leb x c); simpl.
    + intros [<- | H]; auto.
    + intros [<- | H]; auto. destruct (IH H); auto.
Qed.

Lemma sort_strings_in y l : In y (sort_strings l) -> In y l.
Proof.
  induction l as [|x l IH]; simpl; [auto|].
  intros H. destruct (insert_sorted_in _ _ _ H) as [-> | H']; auto.
Qed.

Lemma render_field_not_empty kv : render_field kv <> "".
Proof.
  unfold render_field. destruct (fst kv); discriminate.
Qed.

(** A non-empty field map has a non-empty, hence truthy, signature. *)
Lemma createRowSignature_not_empty values :
  values <> [] -> createRowSignature values <> "".
Proof.
  intros Hne. unfold createRowSignature.
  destruct values as [|kv values]; [contradiction|].
  simpl map. simpl sort_strings.
  destruct (insert_sorted_head (render_field kv)
              (sort_strings (map render_field values))) as (y & l' & -> & Hy).
  assert (Hy' : y <> "").
  { destruct Hy as [-> | Hin]; [apply render_field_not_empty|].
    apply sort_strings_in, in_map_iff in Hin.
    destruct Hin as (kv' & <- & _). apply render_field_not_empty. }
  destruct y as [|c y]; [contradiction|].
  destruct l'; discriminate.
Qed.

Lemma occurrences_cons s rec records :
  occurrences s (rec :: records)
  = match r_values rec with
    | Some values =>
        (if String.eqb s (createRowSignature values) then 1 else 0)
        + occurrences s records
    | None => occurrences s records
    end.
Proof.
  unfold occurrences. simpl batch_signatures.
  destruct (r_values rec) as [values|]; [|reflexivity].
  simpl. now destruct (String.eqb s (createRowSignature values)).
Qed.

Lemma first_pass_fold_counts records acc s :
  default 0 ((fold_left first_pass_step records acc).1 !! s)
  = default 0 (acc.1 !! s) + occurrences s records.
Proof.
  revert acc; induction records as [|rec records IH]; intros acc.
  - symmetry. apply Nat.add_0_r.
  - simpl fold_left. rewrite IH, occurrences_cons. unfold first_pass_step.
    destruct (r_values rec) as [values|]; [|reflexivity].
    cbn [fst snd].
    destruct (String.eqb_spec s (createRowSignature values)) as [->|Hne].
    + rewrite lookup_insert_eq. cbn [default]. unfold id. lia.
    + rewrite lookup_insert_ne by congruence. reflexivity.
Qed.

Lemma first_pass_counts records s :
  default 0 ((first_pass records).1 !! s) = occurrences s records.
Proof.
  unfold first_pass. rewrite first_pass_fold_counts. cbn [fst].
  now rewrite lookup_empty.
Qed.

Lemma first_pass_fold_other records acc i :
  ~ In i (map r_id records) ->
  (fold_left first_pass_step records acc).2 !! i = acc.2 !! i.
Proof.
  revert acc; induction records as [|rec records IH]; intros acc Hni;
    [reflexivity|].
  simpl in *. rewrite IH by tauto. unfold first_pass_step.
  destruct (r_values rec); [|reflexivity].
  simpl. apply lookup_insert_ne. tauto.
Qed.

Lemma first_pass_fold_signature records acc rec values :
  List.NoDup (map r_id records) -> In rec records ->
  r_values rec = Some values ->
  (fold_left first_pass_step records acc).2 !! r_id rec
  = Some (createRowSignature values).
Proof.
  revert acc; induction records as [|r records IH]; intros acc Hnd Hin Hv;
    [destruct Hin|].
  simpl in Hnd. apply List.NoDup_cons_iff in Hnd. destruct Hnd as [Hni Hnd].
  destruct Hin as [-> | Hin].
  - simpl. rewrite first_pass_fold_other by assumption.
    unfold first_pass_step. rewrite Hv. simpl. apply lookup_insert_eq.
  - simpl. now apply IH.
Qed.

Lemma duplicate_status_first_pass records rec values :
  List.NoDup (map r_id records) -> In rec records ->
  r_values rec = Some values -> values <> [] ->
  duplicate_status (first_pass records).1 (first_pass records).2 rec
  = Some (derived_status (occurrences (createRowSignature values) records)).
Proof.
  intros Hnd Hin Hv Hne. unfold duplicate_status, signature_of, first_pass.
  rewrite (first_pass_fold_signature records _ rec values Hnd Hin Hv).
  pose proof (createRowSignature_not_empty values Hne) as Hs.
  apply String.eqb_neq in Hs. rewrite Hs.
  f_equal. f_equal. apply first_pass_counts.
Qed.

Lemma occurrences_nil s : occurrences s [] = 0.
Proof. reflexivity. Qed.

(** C2, as the code has it.  Signatures are taken over every field,
    [duplicateStatus] included: two records whose field maps are identical
    on all fields (in whatever order) receive the same signature.  So in a
    batch of five records with distinct ids and non-empty field maps, where
    records 2 and 4 have identical field maps and no other two signatures
    coincide, records 2 and 4 are assigned the duplicate marker with count
    2 and the other three the unique marker: that is the status the second
    pass derives for them, and each record either stores it already or
    gets it through an update of the submitted batch. *)
Theorem duplicate_scenario
    (i1 i2 i3 i4 i5 : string) (v1 v2 v3 v4 v5 : list (string * jsval)) :
  let batch := [mkRecord i1 (Some v1); mkRecord i2 (Some v2);
                mkRecord i3 (Some v3); mkRecord i4 (Some v4);
                mkRecord i5 (Some v5)] in
  let status := duplicate_status (first_pass batch).1 (first_pass batch).2 in
  List.NoDup [i1; i2; i3; i4; i5] ->
  Forall (fun v => v <> []) [v1; v2; v3; v4; v5] ->
  Permutation v2 v4 ->
  List.NoDup [createRowSignature v1; createRowSignature v2;
              createRowSignature v3; createRowSignature v5] ->
  createRowSignature v2 = createRowSignature v4
  /\ status (mkRecord i2 (Some v2)) = Some (duplicate_marker 2)
  /\ status (mkRecord i4 (Some v4)) = Some (duplicate_marker 2)
  /\ status (mkRecord i1 (Some v1)) = Some unique_marker
  /\ status (mkRecord i3 (Some v3)) = Some unique_marker
  /\ status (mkRecord i5 (Some v5)) = Some unique_marker
  /\ assigned_status batch (mkRecord i2 (Some v2)) (duplicate_marker 2)
  /\ assigned_status batch (mkRecord i4 (Some v4)) (duplicate_marker 2)
  /\ assigned_status batch (mkRecord i1 (Some v1)) unique_marker
  /\ assigned_status batch (mkRecord i3 (Some v3)) unique_marker
  /\ assigned_status batch (mkRecord i5 (Some v5)) unique_marker.
Proof.
  intros batch status Hids Hne Hperm Hsigs.
  pose proof (createRowSignature_permutation v2 v4 Hperm) as H24.
  split; [exact H24|].
  assert (Hnd : List.NoDup (map r_id batch)) by exact Hids.
  repeat match goal with
         | H : Forall _ (_ :: _) |- _ => inversion H; subst; clear H
         end.
  assert (Hd : createRowSignature v1 <> createRowSignature v2
               /\ createRowSignature v1 <> createRowSignature v3
               /\ createRowSignature v1 <> createRowSignature v5
               /\ createRowSignature v2 <> createRowSignature v3
               /\ createRowSignature v2 <> createRowSignature v5
               /\ createRowSignature v3 <> createRowSignature v5).
  { repeat match goal with
           | H : List.NoDup (_ :: _) |- _ =>
               apply List.NoDup_cons_iff in H; destruct H
           end.
    simpl in *. intuition. }
  destruct Hd as (H12 & H13 & H15 & H23 & H25 & H35).
  assert (Hst : forall i v, In (mkRecord i (Some v)) batch -> v <> [] ->
            status (mkRecord i (Some v))
            = Some (derived_status (occurrences (createRowSignature v) batch))).
  { intros i v Hin Hv.
    exact (duplicate_status_first_pass batch _ v Hnd Hin eq_refl Hv). }
  assert (Hocc : forall s, occurrences s batch =
            (if String.eqb s (createRowSignature v1) then 1 else 0)
            + ((if String.eqb s (createRowSignature v2) then 1 else 0)
            + ((if String.eqb s (createRowSignature v3) then 1 else 0)
            + ((if String.eqb s (createRowSignature v2) then 1 else 0)
            + ((if String.eqb s (createRowSignature v5) then 1 else 0) + 0))))).
  { intros s. unfold batch. rewrite !occurrences_cons, occurrences_nil.
    cbn [r_values]. now rewrite <- H24. }
  assert (Hstatus :
    status (mkRecord i2 (Some v2)) = Some (duplicate_marker 2)
    /\ status (mkRecord i4 (Some v4)) = Some (duplicate_marker 2)
    /\ status (mkRecord i1 (Some v1)) = Some unique_marker
    /\ status (mkRecord i3 (Some v3)) = Some unique_marker
    /\ status (mkRecord i5 (Some v5)) = Some unique_marker).
  { repeat split.
    all: rewrite Hst; [|simpl; tauto|assumption].
    all: rewrite <- ?H24, Hocc.
    all: repeat match goal with
                | |- context [String.eqb ?a ?b] =>
                    destruct (String.eqb_spec a b); try congruence
                end.
    all: reflexivity. }
  destruct Hstatus as (S2 & S4 & S1 & S3 & S5).
  repeat split; try assumption.
  all: match goal with
       | |- assigned_status _ (mkRecord ?i (Some ?v)) _ =>
           apply (derived_status_assigned batch (mkRecord i (Some v)) v);
             [simpl; tauto | reflexivity | assumption]
       end.
Qed.

Lemma duplicate_scenario_witness :
  let v1 := [("firstName", JStr "Ann")] in
  let v2 := [("firstName", JStr "Bob"); ("email", JStr "bob@example.com")] in
  let v3 := [("firstName", JStr "Cy")] in
  let v4 := [("email", JStr "bob@example.com"); ("firstName", JStr "Bob")] in
  let v5 := [("firstName", JStr "Di")] in
  let batch := [mkRecord "1" (Some v1); mkRecord "2" (Some v2);
                mkRecord "3" (Some v3); mkRecord "4" (Some v4);
                mkRecord "5" (Some v5)] in
  let status := duplicate_status (first_pass batch).1 (first_pass batch).2 in
  createRowSignature v2 = createRowSignature v4
  /\ status (mkRecord "2" (Some v2)) = Some (duplicate_marker 2)
  /\ status (mkRecord "4" (Some v4)) = Some (duplicate_marker 2)
  /\ status (mkRecord "1" (Some v1)) = Some unique_marker
  /\ status (mkRecord "3" (Some v3)) = Some unique_marker
  /\ status (mkRecord "5" (Some v5)) = Some unique_marker
  /\ assigned_status batch (mkRecord "2" (Some v2)) (duplicate_marker 2)
  /\ assigned_status batch (mkRecord "4" (Some v4)) (duplicate_marker 2)
  /\ assigned_status batch (mkRecord "1" (Some v1)) unique_marker
  /\ assigned_status batch (mkRecord "3" (Some v3)) unique_marker
  /\ assigned_status batch (mkRecord "5" (Some v5)) unique_marker.
Proof.
  intros v1 v2 v3 v4 v5.
  apply (duplicate_scenario "1" "2" "3" "4" "5" v1 v2 v3 v4 v5).
  - repeat constructor; simpl; intuition discriminate.
  - repeat constructor; discriminate.
  - apply perm_swap.
  - vm_compute. repeat constructor; simpl; intuition discriminate.
Defined.

(** C2 as stated fails: records 2 and 4 below have the same field map once
    [duplicateStatus] is set aside, yet their signatures differ and both
    are assigned the unique marker. *)
Lemma duplicate_status_in_signature :
  let v2 := [("firstName", JStr "Bob");
             ("duplicateStatus", JObj (JStr unique_marker))] in
  let v4 := [("firstName", JStr "Bob")] in
  let batch := [mkRecord "1" (Some [("firstName", JStr "Ann")]);
                mkRecord "2" (Some v2);
                mkRecord "3" (Some [("firstName", JStr "Cy")]);
                mkRecord "4" (Some v4);
                mkRecord "5" (Some [("firstName", JStr "Di")])] in
  let status := duplicate_status (first_pass batch).1 (first_pass batch).2 in
  let others (v : list (string * jsval)) :=
    List.filter (fun kv => negb (String.eqb (fst kv) "duplicateStatus")) v in
  others v2 = others v4
  /\ createRowSignature v2 <> createRowSignature v4
  /\ status (mkRecord "2" (Some v2)) = Some unique_marker
  /\ status (mkRecord "4" (Some v4)) = Some unique_marker
  /\ status (mkRecord "2" (Some v2)) <> Some (duplicate_marker 2).
Proof.
  cbv zeta. split; [reflexivity|].
  split; [vm_compute; discriminate|].
  split; [vm_compute; reflexivity|].
  split; [vm_compute; reflexivity|].
  vm_compute; discriminate.
Qed.

(** ** The retry loop *)

Lemma starts_with_record_not_empty records :
  starts_with_record records = true -> records <> [].
Proof. destruct records; [discriminate | discriminate]. Qed.

Lemma starts_with_record_empty records :
  records = [] -> starts_with_record records = false.
Proof. now intros ->. Qed.

Section RetryLoop.

Variable get : nat -> get_result.

Lemma fetch_loop_failed_attempt fuel attempts trace :
  attempts < maxAttempts ->
  starts_with_record (attempt_yield (get attempts)) = false ->
  fetch_loop (S fuel) get (kept_records get attempts) attempts trace
  = fetch_loop fuel get (kept_records get (S attempts)) (attempts + 1)
      (trace ++ failed_attempt_events get attempts).
Proof.
  intros Hlt Hy. apply Nat.ltb_lt in Hlt.
  cbn [fetch_loop kept_records]. rewrite Hlt. unfold failed_attempt_events.
  destruct (get attempts) as [message | r]; simpl in Hy.
  - f_equal. destruct (attempts + 1 <? maxAttempts);
      now rewrite <- ?app_assoc.
  - destruct (response_records r) as [|[id values|] rest];
      [|discriminate Hy|].
    + f_equal. destruct (attempts + 1 <? maxAttempts);
        now rewrite <- ?app_assoc.
    + f_equal. destruct (attempts + 1 <? maxAttempts);
        now rewrite <- ?app_assoc.
Qed.

Lemma fetch_loop_failed_attempts n : forall fuel attempts trace,
  attempts + n <= maxAttempts ->
  (forall j, attempts <= j < attempts + n ->
             starts_with_record (attempt_yield (get j)) = false) ->
  fetch_loop (n + fuel) get (kept_records get attempts) attempts trace
  = fetch_loop fuel get (kept_records get (attempts + n)) (attempts + n)
      (trace ++ flat_map (failed_attempt_events get) (seq attempts n)).
Proof.
  induction n as [|n IH]; intros fuel attempts trace Hle Hfail.
  - simpl. now rewrite Nat.add_0_r, app_nil_r.
  - change (S n + fuel) with (S (n + fuel)).
    rewrite fetch_loop_failed_attempt by (try apply Hfail; lia).
    replace (attempts + 1) with (S attempts) by lia.
    rewrite IH by (try (intros j Hj; apply Hfail); lia).
    change (seq attempts (S n)) with (attempts :: seq (S attempts) n).
    cbn [flat_map]. rewrite <- app_assoc.
    now replace (S attempts + n) with (attempts + S n) by lia.
Qed.

Lemma fetch_loop_success fuel attempts trace kept records :
  attempts < maxAttempts ->
  attempt_yield (get attempts) = records ->
  starts_with_record records = true ->
  fetch_loop (S fuel) get kept attempts trace
  = Some (records, trace ++ [EvGet attempts]).
Proof.
  intros Hlt Hy Hs. apply Nat.ltb_lt in Hlt.
  cbn [fetch_loop]. rewrite Hlt.
  destruct (get attempts) as [message | r]; simpl in Hy.
  - subst records. discriminate Hs.
  - rewrite Hy. now destruct records as [|[id values|] rest].
Qed.

(** The loop stops at the first attempt whose list starts with a
    record. *)
Lemma fetchRecords_first_success k records :
  k < maxAttempts ->
  (forall j, j < k -> starts_with_record (attempt_yield (get j)) = false) ->
  attempt_yield (get k) = records ->
  starts_with_record records = true ->
  fetchRecords get
  = Some (records,
          flat_map (failed_attempt_events get) (seq 0 k) ++ [EvGet k]).
Proof.
  intros Hk Hfail Hy Hs. unfold fetchRecords.
  replace maxAttempts with (k + S (maxAttempts - S k)) at 1 by lia.
  change (@nil record) with (kept_records get 0).
  rewrite fetch_loop_failed_attempts
    by (try (intros j Hj; apply Hfail); lia).
  now apply fetch_loop_success.
Qed.

(** After five failed attempts the loop ends with the list of the last
    call that resolved. *)
Lemma fetchRecords_exhausted :
  (forall j, j < maxAttempts ->
             starts_with_record (attempt_yield (get j)) = false) ->
  fetchRecords get
  = Some (kept_records get maxAttempts,
          flat_map (failed_attempt_events get) (seq 0 maxAttempts)).
Proof.
  intros Hfail. unfold fetchRecords.
  replace maxAttempts with (maxAttempts + 0) at 1 by lia.
  change (@nil record) with (kept_records get 0).
  rewrite fetch_loop_failed_attempts
    by (try (intros j Hj; apply Hfail); lia).
  reflexivity.
Qed.

Lemma count_failed_attempts n : forall a,
  length (List.filter is_get
            (flat_map (failed_attempt_events get) (seq a n))) = n
  /\ length (List.filter is_wait
               (flat_map (failed_attempt_events get) (seq a n)))
     = Nat.min (a + n) (maxAttempts - 1) - Nat.min a (maxAttempts - 1)
  /\ List.filter is_update
       (flat_map (failed_attempt_events get) (seq a n)) = []
  /\ Forall (fun e => is_wait e = true -> e = EvWait 2000)
       (flat_map (failed_attempt_events get) (seq a n)).
Proof.
  induction n as [|n IH]; intros a.
  - simpl. repeat split; try lia. constructor.
  - destruct (IH (S a)) as (Hg & Hw & Hu & Hf).
    change (seq a (S n)) with (a :: seq (S a) n). cbn [flat_map].
    rewrite !List.filter_app, !length_app, Hg, Hw, Hu.
    assert (Hhead :
      length (List.filter is_get (failed_attempt_events get a)) = 1
      /\ length (List.filter is_wait (failed_attempt_events get a))
         = (if a + 1 <? maxAttempts then 1 else 0)
      /\ List.filter is_update (failed_attempt_events get a) = []
      /\ Forall (fun e => is_wait e = true -> e = EvWait 2000)
           (failed_attempt_events get a)).
    { unfold failed_attempt_events.
      destruct (get a) as [message | r];
        [|destruct (response_records r) as [|[id values|] rest]];
        destruct (a + 1 <? maxAttempts); simpl;
        (repeat split; repeat constructor; try discriminate; auto). }
    destruct Hhead as (-> & -> & -> & Hfa).
    repeat split;
      try (unfold maxAttempts; destruct (Nat.ltb_spec (a + 1) 5); lia).
    apply Forall_app. split; assumption.
Qed.

End RetryLoop.

Lemma first_success_or_none (get : nat -> get_result) n :
  (forall j, j < n -> starts_with_record (attempt_yield (get j)) = false)
  \/ exists k, k < n
       /\ (forall j, j < k ->
                     starts_with_record (attempt_yield (get j)) = false)
       /\ starts_with_record (attempt_yield (get k)) = true.
Proof.
  induction n as [|n [IH | (k & Hk & Hfail & Hy)]].
  - left. intros j Hj. lia.
  - destruct (starts_with_record (attempt_yield (get n))) eqn:Hn.
    + right. exists n.
      split; [lia | split; [intros j Hj; now apply IH | exact Hn]].
    + left. intros j Hj. destruct (Nat.eq_dec j n) as [-> | Hne];
        [assumption | apply IH; lia].
  - right. exists k. repeat split; [lia | assumption | assumption].
Qed.

(** The fetch always ends, after at most five calls, and makes no update
    call. *)
Lemma fetchRecords_total (get : nat -> get_result) :
  exists records trace,
    fetchRecords get = Some (records, trace)
    /\ length (List.filter is_get trace) <= maxAttempts
    /\ List.filter is_update trace = [].
Proof.
  destruct (first_success_or_none get maxAttempts)
    as [Hfail | (k & Hk & Hfail & Hy)].
  - destruct (count_failed_attempts get maxAttempts 0) as (Hg & _ & Hu & _).
    do 2 eexists. split; [exact (fetchRecords_exhausted get Hfail)|].
    split; [rewrite Hg; lia | exact Hu].
  - destruct (count_failed_attempts get k 0) as (Hg & _ & Hu & _).
    do 2 eexists.
    split; [exact (fetchRecords_first_success get k _ Hk Hfail eq_refl Hy)|].
    rewrite !List.filter_app, length_app, Hg, Hu. simpl. split; [lia|].
    reflexivity.
Qed.

Lemma formatRecords_completion st records trace :
  fetchRecords (store_get st) = Some (records, trace) ->
  exists c tr, formatRecords st = Some (c, tr)
    /\ (c = Returned
        \/ exists updates message,
             store_update st updates = Some message
             /\ c = Threw message /\ In (EvUpdate updates) tr).
Proof.
  intros Hf. unfold formatRecords. rewrite Hf.
  destruct (length records =? 0); [eauto|].
  destruct (0 <? length (compute_updates records)); [|eauto].
  destruct (store_update st (compute_updates records)) as [message|] eqn:Hu;
    [|eauto].
  do 2 eexists. split; [reflexivity|]. right.
  exists (compute_updates records), message.
  repeat split; [assumption|]. apply in_or_app. right. now left.
Qed.

(** C8.  The claim fails on a store whose list starts with [null].  The
    loop logs the first record inside the [try] block and reads its [id]:
    on such a list every attempt is caught as failed although it yielded
    records, so the fetch makes all five attempts, with four waits, and
    formatRecords then works on the list of the fifth attempt instead of
    the first, and submits the update of the record behind the [null]. *)
Theorem fetch_retries_on_null_first_element
    (rest : list record) (update : list record_update -> option string) :
  let answer := NullRecord :: rest in
  let st := mkStore (fun _ => GetResolves (Nested answer)) update in
  let attempts :=
    [EvGet 0; EvAttemptFailed 1 null_id_error; EvWait 2000;
     EvGet 1; EvAttemptFailed 2 null_id_error; EvWait 2000;
     EvGet 2; EvAttemptFailed 3 null_id_error; EvWait 2000;
     EvGet 3; EvAttemptFailed 4 null_id_error; EvWait 2000;
     EvGet 4; EvAttemptFailed 5 null_id_error] in
  attempt_yield (store_get st 0) = answer
  /\ answer <> []
  /\ fetchRecords (store_get st) = Some (answer, attempts)
  /\ formatRecords
       (mkStore (fun _ => GetResolves
                   (Nested [NullRecord;
                            mkRecord "r1" (Some [("firstName", JStr "ANN")])]))
                (fun _ => None))
     = Some (Returned,
             attempts
             ++ [EvUpdate
                   [mkUpdate "r1"
                      [("firstName", JObj (JStr "Ann"));
                       ("duplicateStatus", JObj (JStr unique_marker))]]]).
Proof.
  cbv zeta. split; [reflexivity|]. split; [discriminate|].
  split; [reflexivity|]. vm_compute. reflexivity.
Qed.

(** ** Records without a field map *)

Lemma first_pass_skips before rec after :
  r_values rec = None ->
  first_pass (before ++ rec :: after) = first_pass (before ++ after).
Proof.
  intros Hv. unfold first_pass. rewrite !fold_left_app. cbn [fold_left].
  f_equal. unfold first_pass_step. now rewrite Hv.
Qed.

Lemma second_pass_skips rowSignatures recordSignatures before rec after :
  r_values rec = None ->
  second_pass rowSignatures recordSignatures (before ++ rec :: after)
  = second_pass rowSignatures recordSignatures (before ++ after).
Proof.
  intros Hv. unfold second_pass. rewrite !flat_map_app. f_equal.
  cbn [flat_map]. unfold record_updates at 1. now rewrite Hv.
Qed.

Lemma second_pass_origin rowSignatures recordSignatures records u :
  In u (second_pass rowSignatures recordSignatures records) ->
  exists rec values,
    In rec records /\ r_values rec = Some values
    /\ u_id u = r_id rec
    /\ record_updates rowSignatures recordSignatures rec = Some (u_values u).
Proof.
  unfold second_pass. intros Hin. apply in_flat_map in Hin.
  destruct Hin as (rec & Hrec & Hu).
  destruct (record_updates rowSignatures recordSignatures rec)
    as [[|kv kvs]|] eqn:Hr; simpl in Hu; try contradiction.
  destruct Hu as [<- | []].
  destruct (r_values rec) as [values|] eqn:Hv.
  - exists rec, values.
    split; [assumption | split; [exact Hv | split; [reflexivity | exact Hr]]].
  - unfold record_updates in Hr. rewrite Hv in Hr. discriminate Hr.
Qed.

(** C10.  A fetched record without a field map is skipped by both passes:
    the signature counts and the submitted batch are those of the batch
    without it, every update of the batch belongs to a record that has a
    field map, and formatRecords goes on as it would without the record,
    whatever fetch the list came from. *)
Theorem valueless_record_skipped
    (before after : list record) (rec : record) :
  r_values rec = None ->
  first_pass (before ++ rec :: after) = first_pass (before ++ after)
  /\ (forall s, occurrences s (before ++ rec :: after)
               = occurrences s (before ++ after))
  /\ compute_updates (before ++ rec :: after)
     = compute_updates (before ++ after)
  /\ (forall u, In u (compute_updates (before ++ rec :: after)) ->
        exists r values, In r (before ++ after)
                         /\ r_values r = Some values /\ u_id u = r_id r)
  /\ (forall st,
        store_get st 0 = GetResolves (Nested (before ++ rec :: after)) ->
        starts_with_record (before ++ rec :: after) = true ->
        let updates := compute_updates (before ++ after) in
        formatRecords st
        = Some (if 0 <? length updates
                then (match store_update st updates with
                      | Some message => Threw message
                      | None => Returned
                      end, [EvGet 0; EvUpdate updates])
                else (Returned, [EvGet 0])))
  /\ (forall st trace,
        fetchRecords (store_get st)
        = Some (before ++ rec :: after, trace) ->
        let updates := compute_updates (before ++ after) in
        formatRecords st
        = Some (if 0 <? length updates
                then (match store_update st updates with
                      | Some message => Threw message
                      | None => Returned
                      end, trace ++ [EvUpdate updates])
                else (Returned, trace))).
Proof.
  intros Hv.
  assert (Hupd : compute_updates (before ++ rec :: after)
                 = compute_updates (before ++ after)).
  { unfold compute_updates. cbv zeta.
    rewrite (first_pass_skips before rec after Hv).
    now apply second_pass_skips. }
  assert (Hrun : forall st trace,
            fetchRecords (store_get st)
            = Some (before ++ rec :: after, trace) ->
            let updates := compute_updates (before ++ after) in
            formatRecords st
            = Some (if 0 <? length updates
                    then (match store_update st updates with
                          | Some message => Threw message
                          | None => Returned
                          end, trace ++ [EvUpdate updates])
                    else (Returned, trace))).
  { intros st trace Hf updates.
    unfold formatRecords. rewrite Hf, Hupd. fold updates.
    assert (Hlen : (length (before ++ rec :: after) =? 0) = false).
    { apply Nat.eqb_neq. rewrite length_app. simpl. lia. }
    rewrite Hlen.
    destruct (0 <? length updates); [|reflexivity].
    now destruct (store_update st updates). }
  split; [now apply first_pass_skips|].
  split.
  { intros s. rewrite <- !first_pass_counts.
    now rewrite (first_pass_skips before rec after Hv). }
  split; [exact Hupd|].
  split.
  { intros u Hu. rewrite Hupd in Hu. unfold compute_updates in Hu.
    apply second_pass_origin in Hu.
    destruct Hu as (r & values & Hr & Hrv & Hid & _). eauto. }
  split; [|exact Hrun].
  intros st Hget Hs updates.
  apply (Hrun st [EvGet 0]).
  apply (fetchRecords_first_success (store_get st) 0).
  - unfold maxAttempts. lia.
  - intros j Hj. lia.
  - now rewrite Hget.
  - exact Hs.
Qed.

Lemma valueless_record_skipped_witness :
  let r1 := mkRecord "r1" (Some [("firstName", JStr "ANN")]) in
  let r2 := mkRecord "r2" None in
  compute_updates [r1; r2] = compute_updates [r1]
  /\ compute_updates [r1; NullRecord] = compute_updates [r1].
Proof.
  intros r1 r2. split.
  - destruct (valueless_record_skipped [r1] [] r2 eq_refl) as (_ & _ & H & _).
    exact H.
  - destruct (valueless_record_skipped [r1] [] NullRecord eq_refl)
      as (_ & _ & H & _).
    exact H.
Defined.

(** ** A second run *)

Lemma lower_upper_char c : lower_char (upper_char c) = lower_char c.
Proof. destruct c as [[] [] [] [] [] [] [] []]; reflexivity. Qed.

Lemma lower_lower_char c : lower_char (lower_char c) = lower_char c.
Proof. destruct c as [[] [] [] [] [] [] [] []]; reflexivity. Qed.

Lemma toLowerCase_idempotent s : toLowerCase (toLowerCase s) = toLowerCase s.
Proof.
  unfold toLowerCase.
  induction s as [|c s IH]; cbn [str_map]; [reflexivity|].
  rewrite lower_lower_char. f_equal. exact IH.
Qed.

Lemma toLowerCase_capitalize_words prev s :
  toLowerCase (capitalize_words prev s) = toLowerCase s.
Proof.
  unfold toLowerCase.
  revert prev; induction s as [|c s IH]; intros prev;
    cbn [str_map capitalize_words]; [reflexivity|].
  rewrite IH. f_equal.
  destruct (is_word c && negb prev); [apply lower_upper_char | reflexivity].
Qed.

(** Name casing is idempotent. *)
Lemma toNameCase_output_fixed n :
  toNameCase (JStr (toNameCase (JStr n))) = toNameCase (JStr n).
Proof.
  destruct n as [|c n]; [reflexivity|].
  change (toNameCase (JStr (String c n)))
    with (capitalize_words false (toLowerCase (String c n))).
  remember (capitalize_words false (toLowerCase (String c n))) as t eqn:Ht.
  assert (Hne : exists d t', t = String d t').
  { rewrite Ht. simpl. eauto. }
  destruct Hne as (d & t' & Hd).
  assert (Hcase : toNameCase (JStr t) = capitalize_words false (toLowerCase t)).
  { rewrite Hd. reflexivity. }
  rewrite Hcase, Ht.
  now rewrite toLowerCase_capitalize_words, toLowerCase_idempotent.
Qed.

Lemma toNameCase_not_empty c n : toNameCase (JStr (String c n)) <> "".
Proof. discriminate. Qed.

Lemma formatPhoneNumber_not_empty phone :
  truthy phone = true -> formatPhoneNumber phone <> "".
Proof.
  intros Ht. unfold formatPhoneNumber. rewrite Ht. simpl negb. cbv iota.
  destruct (_ =? 10); [discriminate|].
  destruct (_ && _); [discriminate|].
  destruct (startsWith "+" (js_toString phone)) eqn:Hp; [|discriminate].
  destruct (js_toString phone); discriminate.
Qed.

(** A stored name that is an output of [toNameCase] needs no update. *)
Lemma name_update_canonical key values c n :
  field key values = JObj (JStr (toNameCase (JStr (String c n)))) ->
  name_update key values = [].
Proof.
  intros Hf. unfold name_update. rewrite Hf.
  pose proof (toNameCase_not_empty c n) as Hne.
  pose proof (toNameCase_output_fixed (String c n)) as Hfix.
  destruct (toNameCase (JStr (String c n))) as [|d t] eqn:Ht; [contradiction|].
  change (unwrap (JObj (JStr (String d t)))) with (JStr (String d t)).
  simpl truthy. simpl is_string. cbv iota. simpl andb. cbv iota.
  rewrite Hfix. unfold jsval_eqb_str. now rewrite String.eqb_refl.
Qed.

(** A stored phone that is an output of [formatPhoneNumber] needs no
    update. *)
Lemma phone_update_canonical values p :
  truthy p = true ->
  field "phone" values = JObj (JStr (formatPhoneNumber p)) ->
  phone_update values = [].
Proof.
  intros Hp Hf. unfold phone_update. rewrite Hf.
  pose proof (formatPhoneNumber_not_empty p Hp) as Hne.
  pose proof (formatPhoneNumber_output_fixed p) as Hfix.
  destruct (formatPhoneNumber p) as [|d t] eqn:Ht; [contradiction|].
  change (unwrap (JObj (JStr (String d t)))) with (JStr (String d t)).
  simpl truthy. cbv iota. rewrite Hfix.
  unfold js_toString. now rewrite String.eqb_refl.
Qed.

Lemma field_set_field k k' v values :
  field k (set_field k' v values)
  = if String.eqb k' k then v else field k values.
Proof.
  induction values as [|[a w] rest IH]; cbn [set_field field].
  - reflexivity.
  - destruct (String.eqb_spec a k') as [-> | Hak]; cbn [field].
    + now destruct (String.eqb k' k).
    + rewrite IH. destruct (String.eqb_spec a k) as [-> | Hne];
        [|reflexivity].
      destruct (String.eqb_spec k' k); [congruence | reflexivity].
Qed.

(** After [set_fields], a field holds a value the update carried for it,
    or the update did not mention it and it is unchanged. *)
Lemma field_set_fields k kvs : forall values,
  (exists v, In (k, v) kvs /\ field k (set_fields kvs values) = v)
  \/ (~ In k (map fst kvs)
      /\ field k (set_fields kvs values) = field k values).
Proof.
  induction kvs as [|[k1 v1] kvs IH]; intros values.
  - right. split; [intros [] | reflexivity].
  - unfold set_fields. cbn [fold_left fst snd]. fold (set_fields kvs).
    destruct (IH (set_field k1 v1 values)) as [(v & Hin & Hv) | (Hni & Hv)].
    + left. exists v. split; [now right | exact Hv].
    + rewrite field_set_field in Hv.
      destruct (String.eqb_spec k1 k) as [-> | Hne].
      * left. exists v1. split; [now left | exact Hv].
      * right. split; [|exact Hv]. simpl. intros [H | H]; auto.
Qed.

Lemma field_map_apply_update rec u :
  field_map (apply_update rec u)
  = if String.eqb (u_id u) (r_id rec)
    then set_fields (u_values u) (field_map rec) else field_map rec.
Proof.
  unfold apply_update. now destruct (String.eqb (u_id u) (r_id rec)).
Qed.

Lemma fold_apply_update_field k updates : forall rec,
  let rec' := fold_left apply_update updates rec in
  (exists u v, In u updates /\ u_id u = r_id rec
               /\ In (k, v) (u_values u) /\ field k (field_map rec') = v)
  \/ ((forall u, In u updates -> u_id u = r_id rec ->
                 ~ In k (map fst (u_values u)))
      /\ field k (field_map rec') = field k (field_map rec)).
Proof.
  induction updates as [|u updates IH]; intros rec; cbn [fold_left].
  - right. split; [intros u [] | reflexivity].
  - assert (Hid : r_id (apply_update rec u) = r_id rec).
    { unfold apply_update. now destruct (String.eqb (u_id u) (r_id rec)). }
    destruct (IH (apply_update rec u))
      as [(u' & v & Hin & Hu' & Hkv & Hv) | (Hnone & Hv)].
    + left. exists u', v. rewrite Hid in Hu'. auto using in_cons.
    + rewrite Hid in Hnone. rewrite field_map_apply_update in Hv.
      destruct (String.eqb_spec (u_id u) (r_id rec)) as [Heq | Hne].
      * destruct (field_set_fields k (u_values u) (field_map rec))
          as [(v & Hin & Hf) | (Hni & Hf)].
        -- left. exists u, v. rewrite Hf in Hv.
           split; [now left | auto].
        -- right. split; [|congruence].
           intros u0 [<- | Hin0] Hid0; auto.
      * right. split; [|exact Hv].
        intros u0 [<- | Hin0] Hid0; [contradiction | auto].
Qed.

Lemma apply_updates_in updates records rec' :
  In rec' (apply_updates updates records) ->
  exists rec, In rec records /\ rec' = fold_left apply_update updates rec.
Proof.
  unfold apply_updates. intros H. apply in_map_iff in H.
  destruct H as (rec & <- & Hin). eauto.
Qed.

Lemma name_update_keys key values kv :
  In kv (name_update key values) ->
  fst kv = key
  /\ exists c n, snd kv = JObj (JStr (toNameCase (JStr (String c n)))).
Proof.
  unfold name_update.
  destruct (is_string (unwrap (field key values))) eqn:Hs;
    [|rewrite andb_false_r; intros []].
  destruct (unwrap (field key values)) as [| |b|z|[|c n]|w];
    try discriminate Hs; [intros []|].
  change (truthy (JStr (String c n)) && true) with true. cbv iota.
  match goal with |- In _ (if ?b then _ else _) -> _ => destruct b end;
    [|intros []].
  intros [<- | []]. split; [reflexivity | eauto].
Qed.

Lemma phone_update_keys values kv :
  In kv (phone_update values) ->
  fst kv = "phone"
  /\ exists p, truthy p = true /\ snd kv = JObj (JStr (formatPhoneNumber p)).
Proof.
  unfold phone_update.
  destruct (truthy (unwrap (field "phone" values))) eqn:Ht; [|intros []].
  match goal with |- In _ (if ?b then _ else _) -> _ => destruct b end;
    [|intros []].
  intros [<- | []]. split; [reflexivity | eauto].
Qed.

Lemma usa_update_keys values kv :
  In kv (usa_update values) -> fst kv = "isUSANumber".
Proof.
  unfold usa_update.
  destruct (truthy _); [|intros []].
  match goal with |- In _ (if ?b then _ else _) -> _ => destruct b end;
    [|intros []].
  now intros [<- | []].
Qed.

Lemma duplicate_update_keys rowSignatures recordSignatures rec values kv :
  In kv (duplicate_update rowSignatures recordSignatures rec values) ->
  fst kv = "duplicateStatus".
Proof.
  unfold duplicate_update.
  destruct (duplicate_status _ _ _); [|intros []].
  match goal with |- In _ (if ?b then _ else _) -> _ => destruct b end;
    [|intros []].
  now intros [<- | []].
Qed.

(** A field update a record needs is in the batch, under the record's id. *)
Lemma own_update_present records rec values kv :
  In rec records -> r_values rec = Some values ->
  In kv (name_update "firstName" values)
  \/ In kv (name_update "lastName" values)
  \/ In kv (phone_update values) ->
  exists u, In u (compute_updates records)
            /\ u_id u = r_id rec /\ In kv (u_values u).
Proof.
  intros Hin Hv Hkv.
  destruct (proj2 (record_updates_in (first_pass records).1
                     (first_pass records).2 rec values kv Hv))
    as (kvs & Hr & Hk); [tauto|].
  destruct kvs as [|kv0 kvs]; [destruct Hk|].
  exists (mkUpdate (r_id rec) (kv0 :: kvs)). repeat split; [|exact Hk].
  unfold compute_updates. now apply second_pass_in.
Qed.

(** What the batch carries for a name or for the phone is an output of
    the canonicaliser. *)
Lemma update_values_canonical records u k v :
  In u (compute_updates records) -> In (k, v) (u_values u) ->
  (k = "firstName" \/ k = "lastName" ->
     exists c n, v = JObj (JStr (toNameCase (JStr (String c n)))))
  /\ (k = "phone" ->
      exists p, truthy p = true /\ v = JObj (JStr (formatPhoneNumber p))).
Proof.
  intros Hu Hkv. unfold compute_updates in Hu.
  apply second_pass_origin in Hu.
  destruct Hu as (rec & values & _ & Hv & _ & Hr).
  destruct (proj1 (record_updates_in _ _ rec values (k, v) Hv)
                  (ex_intro _ _ (conj Hr Hkv)))
    as [H | [H | [H | [H | H]]]].
  - apply name_update_keys in H. destruct H as [Hk Hc]. simpl in Hk, Hc.
    subst k. split; [auto | discriminate].
  - apply name_update_keys in H. destruct H as [Hk Hc]. simpl in Hk, Hc.
    subst k. split; [auto | discriminate].
  - apply phone_update_keys in H. destruct H as [Hk Hc]. simpl in Hk, Hc.
    subst k. split; [intros [|]; discriminate | auto].
  - apply usa_update_keys in H. simpl in H. subst k.
    split; [intros [|]; discriminate | discriminate].
  - apply duplicate_update_keys in H. simpl in H. subst k.
    split; [intros [|]; discriminate | discriminate].
Qed.

Lemma field_map_values rec values :
  r_values rec = Some values -> field_map rec = values.
Proof. unfold field_map. now intros ->. Qed.

Section SecondRun.

Variable records : list record.

(** A record of the store after the first run's batch has been
    applied. *)
Variables (rec' : record) (values' : list (string * jsval)).
Hypothesis Hrec' :
  In rec' (apply_updates (compute_updates records) records).
Hypothesis Hvalues' : r_values rec' = Some values'.

Lemma second_run_name_stable key :
  key = "firstName" \/ key = "lastName" ->
  name_update key values' = [].
Proof.
  intros Hkey.
  destruct (apply_updates_in _ _ _ Hrec') as (rec & Hin & Heq).
  pose proof (fold_apply_update_field key (compute_updates records) rec)
    as Hfold.
  cbv zeta in Hfold. rewrite <- Heq, (field_map_values _ _ Hvalues') in Hfold.
  destruct Hfold as [(u & v & Hu & _ & Hkv & Hv) | (Hnone & Hv)].
  - destruct (update_values_canonical records u key v Hu Hkv) as [Hc _].
    destruct (Hc Hkey) as (c & n & ->).
    now apply (name_update_canonical key values' c n).
  - assert (Hext : name_update key values'
                   = name_update key (field_map rec)).
    { unfold name_update. now rewrite Hv. }
    rewrite Hext.
    destruct (r_values rec) as [values|] eqn:Hvals.
    2:{ unfold field_map. rewrite Hvals. reflexivity. }
    rewrite (field_map_values _ _ Hvals).
    destruct (name_update key values) as [|kv kvs] eqn:Hupd; [reflexivity|].
    exfalso.
    assert (Hkv : In kv (name_update key values))
      by (rewrite Hupd; now left).
    destruct (own_update_present records rec values kv Hin Hvals)
      as (u & Hu & Hid & Hk).
    { destruct Hkey as [-> | ->]; tauto. }
    apply (Hnone u Hu Hid). apply in_map_iff. exists kv. split; [|exact Hk].
    now apply name_update_keys in Hkv.
Qed.

Lemma second_run_phone_stable : phone_update values' = [].
Proof.
  destruct (apply_updates_in _ _ _ Hrec') as (rec & Hin & Heq).
  pose proof (fold_apply_update_field "phone" (compute_updates records) rec)
    as Hfold.
  cbv zeta in Hfold. rewrite <- Heq, (field_map_values _ _ Hvalues') in Hfold.
  destruct Hfold as [(u & v & Hu & _ & Hkv & Hv) | (Hnone & Hv)].
  - destruct (update_values_canonical records u "phone" v Hu Hkv) as [_ Hc].
    destruct (Hc eq_refl) as (p & Hp & ->).
    now apply (phone_update_canonical values' p).
  - assert (Hext : phone_update values' = phone_update (field_map rec)).
    { unfold phone_update. now rewrite Hv. }
    rewrite Hext.
    destruct (r_values rec) as [values|] eqn:Hvals.
    2:{ unfold field_map. rewrite Hvals. reflexivity. }
    rewrite (field_map_values _ _ Hvals).
    destruct (phone_update values) as [|kv kvs] eqn:Hupd; [reflexivity|].
    exfalso.
    assert (Hkv : In kv (phone_update values))
      by (rewrite Hupd; now left).
    destruct (own_update_present records rec values kv Hin Hvals)
      as (u & Hu & Hid & Hk); [tauto|].
    apply (Hnone u Hu Hid). apply in_map_iff. exists kv. split; [|exact Hk].
    now apply phone_update_keys in Hkv.
Qed.

End SecondRun.

(** C1, as the code has it.  Let R' be R with the updates of one run of
    formatRecords applied.  A second run on R' computes no [firstName],
    [lastName] or [phone] update: every field it updates is [isUSANumber]
    or [duplicateStatus]. *)
Theorem second_run_updates_derived_fields_only
    (records : list record) (u : record_update) (k : string) :
  In u (compute_updates (apply_updates (compute_updates records) records)) ->
  In k (map fst (u_values u)) ->
  k = "isUSANumber" \/ k = "duplicateStatus".
Proof.
  intros Hu Hk. unfold compute_updates in Hu at 1.
  apply second_pass_origin in Hu.
  destruct Hu as (rec' & values' & Hin' & Hv' & _ & Hr).
  apply in_map_iff in Hk. destruct Hk as (kv & <- & Hkv).
  destruct (proj1 (record_updates_in _ _ rec' values' kv Hv')
                  (ex_intro _ _ (conj Hr Hkv)))
    as [H | [H | [H | [H | H]]]].
  - rewrite (second_run_name_stable records rec' values' Hin' Hv') in H
      by auto. destruct H.
  - rewrite (second_run_name_stable records rec' values' Hin' Hv') in H
      by auto. destruct H.
  - rewrite (second_run_phone_stable records rec' values' Hin' Hv') in H.
    destruct H.
  - left. now apply usa_update_keys in H.
  - right. now apply duplicate_update_keys in H.
Qed.

Lemma second_run_updates_derived_fields_only_witness :
  let records := [mkRecord "r1" (Some [("firstName", JObj (JStr "ANN"))]);
                  mkRecord "r2" (Some [("firstName", JObj (JStr "Ann"))])] in
  let u := mkUpdate "r1"
             [("duplicateStatus", JObj (JStr (duplicate_marker 2)))] in
  In u (compute_updates (apply_updates (compute_updates records) records))
  /\ ("duplicateStatus" = "isUSANumber"
      \/ "duplicateStatus" = "duplicateStatus").
Proof.
  intros records u.
  assert (Hu : In u (compute_updates
                       (apply_updates (compute_updates records) records)))
    by (vm_compute; left; reflexivity).
  split; [exact Hu|].
  apply (second_run_updates_derived_fields_only records u "duplicateStatus").
  - exact Hu.
  - left; reflexivity.
Defined.

(** C1 as stated fails.  The first run turns "ANN" into "Ann" and marks
    both records unique; the two stored rows are then identical, so the
    second run computes two updates and makes a batch-update call. *)
Lemma second_run_not_empty :
  let records := [mkRecord "r1" (Some [("firstName", JObj (JStr "ANN"))]);
                  mkRecord "r2" (Some [("firstName", JObj (JStr "Ann"))])] in
  let records' := apply_updates (compute_updates records) records in
  compute_updates records'
  = [mkUpdate "r1" [("duplicateStatus", JObj (JStr (duplicate_marker 2)))];
     mkUpdate "r2" [("duplicateStatus", JObj (JStr (duplicate_marker 2)))]]
  /\ compute_updates records' <> []
  /\ formatRecords (mkStore (fun _ => GetResolves (Nested records'))
                            (fun _ => None))
     = Some (Returned, [EvGet 0; EvUpdate (compute_updates records')]).
Proof.
  cbv zeta. split; [vm_compute; reflexivity|].
  split; [vm_compute; discriminate | vm_compute; reflexivity].
Qed.

(** A stored [{ value: false }] flag unwraps to the wrapper object, which
    is never equal to the computed boolean: the flag of a non-USA phone is
    written again by every run. *)
Lemma usa_false_flag_rewritten :
  let records := [mkRecord "r1" (Some [("phone", JStr "123")])] in
  let records' := apply_updates (compute_updates records) records in
  let records'' := apply_updates (compute_updates records') records' in
  unwrap (JObj (JBool false)) = JObj (JBool false)
  /\ compute_updates records'
     = [mkUpdate "r1" [("isUSANumber", JObj (JBool false))]]
  /\ compute_updates records''
     = [mkUpdate "r1" [("isUSANumber", JObj (JBool false))]].
Proof. cbv zeta. repeat split; vm_compute; reflexivity. Qed.

(** * Further properties of the code *)

(** ** The phone formatter *)

Lemma startsWith_cons a p b s :
  startsWith (String a p) (String b s) = Ascii.eqb a b && startsWith p s.
Proof. reflexivity. Qed.

Lemma startsWith_nanp_form d : startsWith "+1 " (nanp_form d) = true.
Proof. reflexivity. Qed.

(** X1.  The formatter's result starts with [+] for every non-empty
    (truthy) value, and is the empty string for a falsy one. *)
Theorem formatPhoneNumber_output_shape (phone : jsval) :
  startsWith "+" (formatPhoneNumber phone) = truthy phone
  /\ (truthy phone = false -> formatPhoneNumber phone = "").
Proof.
  unfold formatPhoneNumber.
  destruct (truthy phone) eqn:Ht; simpl negb; cbv iota;
    [|split; [reflexivity | reflexivity]].
  split; [|discriminate].
  destruct (_ =? 10); [reflexivity|].
  destruct (_ && _); [reflexivity|].
  destruct (startsWith "+" (js_toString phone)) eqn:Hp;
    [exact Hp | reflexivity].
Qed.

Lemma formatPhoneNumber_output_shape_witness :
  formatPhoneNumber (JNum 0) = "".
Proof.
  apply (formatPhoneNumber_output_shape (JNum 0)). reflexivity.
Defined.

Lemma nanp_digits_cases d :
  nanp_digits d = true ->
  String.length d = 10
  \/ exists e, d = String "1" e /\ String.length e = 10.
Proof.
  unfold nanp_digits. intros H. apply orb_prop in H.
  destruct H as [H | H]; [left; now apply Nat.eqb_eq|].
  apply andb_prop in H. destruct H as [Hlen H1].
  apply Nat.eqb_eq in Hlen. apply startsWith_one in H1.
  right. exists (slice_from 1 d). split; [exact H1|].
  rewrite H1 in Hlen. simpl in Hlen. now apply Nat.succ_inj in Hlen.
Qed.

Lemma format_other phone :
  truthy phone = true ->
  nanp_digits (strip_non_digits (js_toString phone)) = false ->
  formatPhoneNumber phone
  = if startsWith "+" (js_toString phone) then js_toString phone
    else "+" +:+ strip_non_digits (js_toString phone).
Proof.
  intros Ht Hd. unfold nanp_digits in Hd. apply orb_false_elim in Hd.
  destruct Hd as [H10 H11].
  unfold formatPhoneNumber. now rewrite Ht, H10, H11.
Qed.

(** X2.  Formatting never drops or alters a digit: the digits of the
    result are the digits of the input, preceded by the country code 1
    when the input has exactly ten digits. *)
Theorem formatPhoneNumber_keeps_digits (phone : jsval) :
  truthy phone = true ->
  let D := strip_non_digits (js_toString phone) in
  strip_non_digits (formatPhoneNumber phone)
  = if String.length D =? 10 then String "1" D else D.
Proof.
  intros Ht D.
  pose proof (str_filter_forallb is_digit (js_toString phone)) as Hdig.
  fold (strip_non_digits (js_toString phone)) in Hdig. fold D in Hdig.
  destruct (nanp_digits D) eqn:Hn.
  - destruct (nanp_digits_cases D Hn) as [H10 | (e & He & Hlen)].
    + rewrite (format_ten_digits phone Ht H10). fold D.
      rewrite (digits_of_nanp_form D H10 Hdig).
      apply Nat.eqb_eq in H10. now rewrite H10.
    + rewrite (format_eleven_digits phone e Ht He Hlen).
      assert (He10 : str_forallb is_digit e = true).
      { rewrite He in Hdig.
        change (is_digit "1" && str_forallb is_digit e = true) in Hdig.
        now apply andb_prop in Hdig. }
      rewrite (digits_of_nanp_form e Hlen He10), He.
      simpl String.length. rewrite Hlen. reflexivity.
  - rewrite (format_other phone Ht Hn). fold D.
    assert (H10 : (String.length D =? 10) = false).
    { unfold nanp_digits in Hn. now apply orb_false_elim in Hn. }
    rewrite H10.
    destruct (startsWith "+" (js_toString phone)); [reflexivity|].
    change (str_filter is_digit (String "+" D) = D).
    simpl. apply (str_filter_id is_digit), Hdig.
Qed.

Lemma formatPhoneNumber_keeps_digits_witness :
  strip_non_digits (formatPhoneNumber (JStr "(555) 123-4567")) = "15551234567"
  /\ strip_non_digits (formatPhoneNumber (JStr "+44 20 7946 0958"))
     = "442079460958".
Proof.
  split.
  - apply (formatPhoneNumber_keeps_digits (JStr "(555) 123-4567")). reflexivity.
  - apply (formatPhoneNumber_keeps_digits (JStr "+44 20 7946 0958")).
    reflexivity.
Defined.

(** ** The classifier *)

Lemma no_plus_prefix s p :
  startsWith "+" s = false -> startsWith (String "+" p) s = false.
Proof.
  destruct s as [|c s]; [reflexivity|].
  rewrite !startsWith_cons. simpl (startsWith "" s). rewrite andb_true_r.
  now intros ->.
Qed.

(** Without a leading [+] the classification is the digit rule. *)
Lemma isUSANumber_no_plus phone :
  truthy phone = true ->
  startsWith "+" (js_toString phone) = false ->
  isUSANumber phone = nanp_digits (strip_non_digits (js_toString phone)).
Proof.
  intros Ht Hp. unfold isUSANumber, nanp_digits. cbv zeta.
  rewrite Ht, (no_plus_prefix _ "1 " Hp), (no_plus_prefix _ "1" Hp).
  simpl negb. cbv iota. simpl andb. cbv iota.
  destruct (_ =? 10); [reflexivity|].
  now destruct (_ && _).
Qed.

Lemma isUSANumber_truthy phone : isUSANumber phone = true -> truthy phone = true.
Proof.
  unfold isUSANumber. destruct (truthy phone); [reflexivity | discriminate].
Qed.

Lemma isUSANumber_nanp_form d : isUSANumber (JStr (nanp_form d)) = true.
Proof. reflexivity. Qed.

(** X3.  Formatting keeps a USA classification: a value classified USA is
    still classified USA once formatted, and every value the formatter
    puts in the [+1 (AAA) PPP-LLLL] form (ten digits, or eleven with a
    leading 1) is classified USA after formatting. *)
Theorem isUSANumber_after_formatting (phone : jsval) :
  (isUSANumber phone = true ->
     isUSANumber (JStr (formatPhoneNumber phone)) = true)
  /\ (truthy phone = true ->
      nanp_digits (strip_non_digits (js_toString phone)) = true ->
      isUSANumber (JStr (formatPhoneNumber phone)) = true).
Proof.
  assert (Hform : truthy phone = true ->
            nanp_digits (strip_non_digits (js_toString phone)) = true ->
            isUSANumber (JStr (formatPhoneNumber phone)) = true).
  { intros Ht Hn.
    destruct (nanp_digits_cases _ Hn) as [H10 | (e & He & Hlen)].
    - rewrite (format_ten_digits phone Ht H10). apply isUSANumber_nanp_form.
    - rewrite (format_eleven_digits phone e Ht He Hlen).
      apply isUSANumber_nanp_form. }
  split; [|exact Hform].
  intros Husa. pose proof (isUSANumber_truthy phone Husa) as Ht.
  destruct (nanp_digits (strip_non_digits (js_toString phone))) eqn:Hn;
    [now apply Hform|].
  rewrite (format_other phone Ht Hn).
  destruct (startsWith "+" (js_toString phone)) eqn:Hp.
  - destruct phone as [| |[|]|z|s|v]; try discriminate Hp; [|exact Husa].
    change (js_toString (JNum z)) with (Z_to_string z) in Hp.
    rewrite Z_to_string_no_plus in Hp. discriminate Hp.
  - rewrite (isUSANumber_no_plus phone Ht Hp), Hn in Husa. discriminate Husa.
Qed.

Lemma isUSANumber_after_formatting_witness :
  isUSANumber (JStr (formatPhoneNumber (JStr "555.123.4567"))) = true
  /\ isUSANumber (JStr (formatPhoneNumber (JStr "+1234-567-8901"))) = true.
Proof.
  split.
  - apply (proj1 (isUSANumber_after_formatting (JStr "555.123.4567"))).
    reflexivity.
  - apply (proj2 (isUSANumber_after_formatting (JStr "+1234-567-8901")));
      reflexivity.
Defined.

(** X4.  For a non-empty value without a leading [+] the classification
    depends on the digits alone: it is true exactly when the value has ten
    digits, or eleven digits with a leading 1. *)
Theorem isUSANumber_raw_digit_rule (phone : jsval) :
  truthy phone = true ->
  startsWith "+" (js_toString phone) = false ->
  let D := strip_non_digits (js_toString phone) in
  isUSANumber phone = true
  <-> String.length D = 10
      \/ (String.length D = 11 /\ startsWith "1" D = true).
Proof.
  intros Ht Hp D. rewrite (isUSANumber_no_plus phone Ht Hp). fold D.
  unfold nanp_digits. rewrite orb_true_iff, andb_true_iff, !Nat.eqb_eq.
  reflexivity.
Qed.

Lemma isUSANumber_raw_digit_rule_witness :
  isUSANumber (JStr "1-555-123-4567 ext") = true.
Proof.
  apply (isUSANumber_raw_digit_rule (JStr "1-555-123-4567 ext"));
    [reflexivity | reflexivity |].
  right. split; reflexivity.
Defined.

(** ** Name casing *)

Lemma str_map_length f s : String.length (str_map f s) = String.length s.
Proof. induction s as [|c s IH]; simpl; [reflexivity | now rewrite IH]. Qed.

Lemma capitalize_words_length prev s :
  String.length (capitalize_words prev s) = String.length s.
Proof.
  revert prev; induction s as [|c s IH]; intros prev; simpl;
    [reflexivity | now rewrite IH].
Qed.

Lemma toNameCase_string s :
  toNameCase (JStr s) = capitalize_words false (toLowerCase s).
Proof. now destruct s. Qed.

(** X5.  Name casing is idempotent: applied to its own result it returns
    that result, for every value. *)
Theorem toNameCase_idempotent (name : jsval) :
  toNameCase (JStr (toNameCase name)) = toNameCase name.
Proof.
  destruct name as [| |b|z|s|v]; try reflexivity.
  - now destruct b.
  - unfold toNameCase. simpl. now destruct (negb (z =? 0)%Z).
  - apply toNameCase_output_fixed.
Qed.

(** X6.  On ASCII text name casing changes letter case and nothing else:
    the result has the length of the input and the same lower-case form,
    and it does not depend on the case of the input. *)
Theorem toNameCase_changes_case_only (s : string) :
  is_ascii s = true ->
  String.length (toNameCase (JStr s)) = String.length s
  /\ toLowerCase (toNameCase (JStr s)) = toLowerCase s
  /\ toNameCase (JStr (toLowerCase s)) = toNameCase (JStr s).
Proof.
  intros _. rewrite !toNameCase_string. repeat split.
  - unfold toLowerCase. now rewrite capitalize_words_length, str_map_length.
  - now rewrite toLowerCase_capitalize_words, toLowerCase_idempotent.
  - now rewrite toLowerCase_idempotent.
Qed.

Lemma toNameCase_changes_case_only_witness :
  String.length (toNameCase (JStr "mary-ANN o'NEIL")) = 15
  /\ toLowerCase (toNameCase (JStr "mary-ANN o'NEIL")) = "mary-ann o'neil"
  /\ toNameCase (JStr (toLowerCase "mary-ANN o'NEIL"))
     = toNameCase (JStr "mary-ANN o'NEIL").
Proof.
  apply (toNameCase_changes_case_only "mary-ANN o'NEIL"). reflexivity.
Defined.

(** ** Row signatures *)

(** X7.  The signature does not depend on the order of the fields. *)
Theorem createRowSignature_order_invariant
    (values1 values2 : list (string * jsval)) :
  Permutation values1 values2 ->
  createRowSignature values1 = createRowSignature values2.
Proof.
  intros H. unfold createRowSignature. f_equal.
  apply sort_strings_permutation. now apply Permutation_map.
Qed.

Lemma createRowSignature_order_invariant_witness :
  createRowSignature [("phone", JStr "123"); ("email", JNull)]
  = createRowSignature [("email", JNull); ("phone", JStr "123")].
Proof.
  apply createRowSignature_order_invariant. apply perm_swap.
Defined.

Lemma unwrap_primitive v : is_primitive v = true -> unwrap v = v.
Proof. now destruct v. Qed.

Lemma unwrap_wrapper v : unwrap (JObj v) = if truthy v then v else JObj v.
Proof. reflexivity. Qed.

(** X8.  A field map whose values are truthy scalars has the same
    signature bare and in wrapper form. *)
Theorem createRowSignature_wrapper_form (values : list (string * jsval)) :
  Forall (fun kv => is_primitive (snd kv) = true /\ truthy (snd kv) = true)
         values ->
  createRowSignature (wrap_all values) = createRowSignature values.
Proof.
  intros H. unfold createRowSignature, wrap_all. do 2 f_equal.
  rewrite map_map. apply map_ext_in. intros [k v] Hin.
  rewrite List.Forall_forall in H. destruct (H _ Hin) as [Hp Ht].
  simpl in Hp, Ht.
  unfold render_field. cbn [fst snd].
  now rewrite unwrap_wrapper, Ht, (unwrap_primitive v Hp).
Qed.

Lemma createRowSignature_wrapper_form_witness :
  createRowSignature [("firstName", JObj (JStr "Ann")); ("age", JObj (JNum 41))]
  = createRowSignature [("firstName", JStr "Ann"); ("age", JNum 41)].
Proof.
  apply (createRowSignature_wrapper_form
           [("firstName", JStr "Ann"); ("age", JNum 41)]).
  repeat constructor.
Defined.

Lemma append_assoc a b c : (a +:+ b) +:+ c = a +:+ (b +:+ c).
Proof. induction a as [|x a IH]; simpl; [reflexivity | now rewrite IH]. Qed.

(** X9.  The signature does not escape its delimiters: a record with the
    two string fields [k1: v1] and [k2: v2] (rendered in sorted order) has
    the signature of the record whose single field [k1] holds
    [v1|k2:v2]. *)
Theorem createRowSignature_delimiter_collision (k1 v1 k2 v2 : string) :
  String.leb (k1 +:+ ":" +:+ v1) (k2 +:+ ":" +:+ v2) = true ->
  createRowSignature [(k1, JStr v1); (k2, JStr v2)]
  = createRowSignature [(k1, JStr (v1 +:+ "|" +:+ k2 +:+ ":" +:+ v2))].
Proof.
  intros Hle. unfold createRowSignature, render_field. cbn [map fst snd].
  change (unwrap (JStr v1)) with (JStr v1).
  change (unwrap (JStr v2)) with (JStr v2).
  change (unwrap (JStr (v1 +:+ "|" +:+ k2 +:+ ":" +:+ v2)))
    with (JStr (v1 +:+ "|" +:+ k2 +:+ ":" +:+ v2)).
  cbn [js_toString sort_strings fold_right insert_sorted]. rewrite Hle.
  cbn [String.concat].
  now rewrite !append_assoc.
Qed.

Lemma createRowSignature_delimiter_collision_witness :
  createRowSignature [("a", JStr "1"); ("b", JStr "2")]
  = createRowSignature [("a", JStr "1|b:2")].
Proof.
  apply (createRowSignature_delimiter_collision "a" "1" "b" "2").
  reflexivity.
Defined.

(** ** The first pass *)

Lemma first_pass_fold_positive records : forall acc,
  (forall s, acc.1 !! s <> Some 0) ->
  forall s, (fold_left first_pass_step records acc).1 !! s <> Some 0.
Proof.
  induction records as [|rec records IH]; intros acc Hacc; [exact Hacc|].
  cbn [fold_left]. apply IH. intros s. unfold first_pass_step.
  destruct (r_values rec) as [values|]; [|apply Hacc].
  cbn [fst]. destruct (String.eqb_spec (createRowSignature values) s)
    as [-> | Hne].
  - rewrite lookup_insert_eq. intros [= H]. lia.
  - rewrite lookup_insert_ne by assumption. apply Hacc.
Qed.

(** X10.  After the first pass, [rowSignatures] holds for every signature
    the number of records with a field map that have it, and no entry for
    a signature no record has. *)
Theorem first_pass_count_invariant (records : list record) (s : string) :
  (first_pass records).1 !! s
  = if occurrences s records =? 0 then None
    else Some (occurrences s records).
Proof.
  pose proof (first_pass_counts records s) as Hc.
  assert (Hp : (first_pass records).1 !! s <> Some 0).
  { apply first_pass_fold_positive. intros s'. cbn [fst].
    rewrite lookup_empty. discriminate. }
  destruct ((first_pass records).1 !! s) as [n|] eqn:Hl;
    cbn [default from_option] in Hc; unfold id in Hc; rewrite <- Hc.
  - destruct n; [now contradiction Hp | reflexivity].
  - reflexivity.
Qed.

(** ** Duplicate status *)

Lemma occurrences_in records rec values :
  In rec records -> r_values rec = Some values ->
  1 <= occurrences (createRowSignature values) records.
Proof.
  induction records as [|r records IH]; intros Hin Hv; [destruct Hin|].
  rewrite occurrences_cons. destruct Hin as [-> | Hin].
  - rewrite Hv, String.eqb_refl. lia.
  - specialize (IH Hin Hv). destruct (r_values r); [lia | exact IH].
Qed.

Lemma duplicate_marker_not_unique n : duplicate_marker n <> unique_marker.
Proof. intros H. vm_compute in H. discriminate H. Qed.

(** X11.  In a batch with distinct ids, a record with a non-empty field
    map is given the unique marker exactly when no other record of the
    batch has its signature, and otherwise the duplicate marker with the
    number of records that have it: the record stores that marker already
    or the submitted batch carries the update that sets it. *)
Theorem duplicate_status_by_count
    (records : list record) (rec : record) (values : list (string * jsval)) :
  List.NoDup (map r_id records) -> In rec records ->
  r_values rec = Some values -> values <> [] ->
  let n := occurrences (createRowSignature values) records in
  let status :=
    duplicate_status (first_pass records).1 (first_pass records).2 rec in
  1 <= n
  /\ status = Some (if n =? 1 then unique_marker else duplicate_marker n)
  /\ (status = Some unique_marker <-> n = 1)
  /\ assigned_status records rec
       (if n =? 1 then unique_marker else duplicate_marker n).
Proof.
  intros Hnd Hin Hv Hne n status.
  pose proof (occurrences_in records rec values Hin Hv) as Hn. fold n in Hn.
  assert (Hs : status
               = Some (if n =? 1 then unique_marker else duplicate_marker n)).
  { unfold status.
    rewrite (duplicate_status_first_pass records rec values Hnd Hin Hv Hne).
    fold n. unfold derived_status.
    destruct (Nat.eqb_spec n 1) as [-> | H1]; [reflexivity|].
    assert (Hlt : (1 <? n) = true) by (apply Nat.ltb_lt; lia).
    now rewrite Hlt. }
  split; [exact Hn|]. split; [exact Hs|]. split.
  - rewrite Hs. destruct (Nat.eqb_spec n 1) as [H1 | H1].
    + tauto.
    + split; [|contradiction].
      intros H. exfalso. apply (duplicate_marker_not_unique n). congruence.
  - exact (derived_status_assigned records rec values _ Hin Hv Hs).
Qed.

Lemma duplicate_status_by_count_witness :
  let a := mkRecord "1" (Some [("email", JStr "a@example.com")]) in
  let b := mkRecord "2" (Some [("email", JStr "b@example.com")]) in
  let c := mkRecord "3" (Some [("email", JObj (JStr "a@example.com"))]) in
  duplicate_status (first_pass [a; b; c]).1 (first_pass [a; b; c]).2 c
  = Some (duplicate_marker 2)
  /\ assigned_status [a; b; c] c (duplicate_marker 2).
Proof.
  intros a b c.
  destruct (duplicate_status_by_count [a; b; c] c
              [("email", JObj (JStr "a@example.com"))]) as (_ & H & _ & Ha).
  - repeat constructor; simpl; intuition discriminate.
  - right; right; left; reflexivity.
  - reflexivity.
  - discriminate.
  - split; [exact H | exact Ha].
Defined.

Lemma NoDup_map_injective {A B : Type} (f : A -> B) (l : list A) a b :
  List.NoDup (map f l) -> In a l -> In b l -> f a = f b -> a = b.
Proof.
  induction l as [|x l IH]; intros Hnd Ha Hb Hf; [destruct Ha|].
  simpl in Hnd. apply List.NoDup_cons_iff in Hnd. destruct Hnd as [Hx Hnd].
  destruct Ha as [-> | Ha], Hb as [-> | Hb]; auto.
  - exfalso. apply Hx. rewrite Hf. now apply in_map.
  - exfalso. apply Hx. rewrite <- Hf. now apply in_map.
Qed.

Lemma second_pass_not_empty rowSignatures recordSignatures records u :
  In u (second_pass rowSignatures recordSignatures records) ->
  u_values u <> [].
Proof.
  unfold second_pass. intros Hin. apply in_flat_map in Hin.
  destruct Hin as (rec & _ & Hu).
  destruct (record_updates rowSignatures recordSignatures rec)
    as [[|kv kvs]|]; simpl in Hu; try contradiction.
  destruct Hu as [<- | []]. discriminate.
Qed.

(** X12.  A record whose field map is empty is processed and left alone:
    in a batch with distinct ids no update of the batch carries its id
    (its signature is the empty string, which the second pass treats as no
    signature). *)
Theorem empty_field_map_no_update (records : list record) (rec : record) :
  List.NoDup (map r_id records) -> In rec records ->
  r_values rec = Some [] ->
  createRowSignature [] = ""
  /\ forall u, In u (compute_updates records) -> u_id u <> r_id rec.
Proof.
  intros Hnd Hin Hv. split; [reflexivity|].
  intros u Hu Hid. unfold compute_updates in Hu. cbv zeta in Hu.
  pose proof (second_pass_not_empty _ _ _ _ Hu) as Hne.
  apply second_pass_origin in Hu.
  destruct Hu as (rec0 & values0 & Hin0 & Hv0 & Hid0 & Hr).
  assert (rec0 = rec) as ->.
  { apply (NoDup_map_injective r_id records); auto. congruence. }
  apply Hne. unfold record_updates in Hr. rewrite Hv in Hr.
  unfold duplicate_update, duplicate_status, signature_of, first_pass in Hr.
  rewrite (first_pass_fold_signature records _ rec [] Hnd Hin Hv) in Hr.
  now injection Hr as <-.
Qed.

Lemma empty_field_map_no_update_witness :
  let a := mkRecord "1" (Some []) in
  let b := mkRecord "2" (Some [("firstName", JStr "bob")]) in
  List.Forall (fun u => u_id u <> "1") (compute_updates [a; b]).
Proof.
  intros a b. apply List.Forall_forall.
  apply (empty_field_map_no_update [a; b] a).
  - repeat constructor; simpl; intuition discriminate.
  - left; reflexivity.
  - reflexivity.
Defined.

(** ** The batch of updates *)

Lemma jsval_eqb_str_false x s : jsval_eqb_str x s = false -> x <> JStr s.
Proof.
  intros E ->. unfold jsval_eqb_str in E. now rewrite String.eqb_refl in E.
Qed.

Lemma jsval_eqb_bool_false x b : jsval_eqb_bool x b = false -> x <> JBool b.
Proof.
  intros E ->. unfold jsval_eqb_bool in E. now rewrite Bool.eqb_reflx in E.
Qed.

Lemma toString_eqb_false x s :
  String.eqb s (js_toString x) = false -> x <> JStr s.
Proof.
  intros E ->. unfold js_toString in E. now rewrite String.eqb_refl in E.
Qed.

Lemma name_update_shape key values :
  name_update key values = []
  \/ exists s, name_update key values = [(key, JObj (JStr s))]
                /\ unwrap (field key values) <> JStr s.
Proof.
  unfold name_update.
  destruct (truthy _ && is_string _); [|now left].
  destruct (jsval_eqb_str _ _) eqn:E; [now left|].
  right. eexists. split; [reflexivity|].
  now apply jsval_eqb_str_false.
Qed.

Lemma phone_update_shape values :
  phone_update values = []
  \/ exists s, phone_update values = [("phone", JObj (JStr s))]
                /\ unwrap (field "phone" values) <> JStr s.
Proof.
  unfold phone_update.
  destruct (truthy _); [|now left].
  destruct (String.eqb _ _) eqn:E; [now left|].
  right. eexists. split; [reflexivity|].
  now apply toString_eqb_false.
Qed.

Lemma usa_update_shape values :
  usa_update values = []
  \/ exists b, usa_update values = [("isUSANumber", JObj (JBool b))]
                /\ unwrap (field "isUSANumber" values) <> JBool b.
Proof.
  unfold usa_update.
  destruct (truthy _); [|now left].
  destruct (jsval_eqb_bool _ _) eqn:E; [now left|].
  right. eexists. split; [reflexivity|].
  now apply jsval_eqb_bool_false.
Qed.

Lemma duplicate_update_shape rowSignatures recordSignatures rec values :
  duplicate_update rowSignatures recordSignatures rec values = []
  \/ exists s,
       duplicate_update rowSignatures recordSignatures rec values
       = [("duplicateStatus", JObj (JStr s))]
       /\ unwrap (field "duplicateStatus" values) <> JStr s.
Proof.
  unfold duplicate_update.
  destruct (duplicate_status _ _ _) as [status|]; [|now left].
  destruct (jsval_eqb_str _ _) eqn:E; [now left|].
  right. eexists. split; [reflexivity|].
  now apply jsval_eqb_str_false.
Qed.

(** The five parts of [recordUpdates], each empty or one field. *)
Lemma record_updates_parts rowSignatures recordSignatures rec values :
  r_values rec = Some values ->
  exists a b c d e,
    record_updates rowSignatures recordSignatures rec
    = Some (a ++ b ++ c ++ d ++ e)
    /\ (a = [] \/ exists s, a = [("firstName", JObj (JStr s))]
                            /\ unwrap (field "firstName" values) <> JStr s)
    /\ (b = [] \/ exists s, b = [("lastName", JObj (JStr s))]
                            /\ unwrap (field "lastName" values) <> JStr s)
    /\ (c = [] \/ exists s, c = [("phone", JObj (JStr s))]
                            /\ unwrap (field "phone" values) <> JStr s)
    /\ (d = [] \/ exists t, d = [("isUSANumber", JObj (JBool t))]
                            /\ unwrap (field "isUSANumber" values) <> JBool t)
    /\ (e = [] \/ exists s, e = [("duplicateStatus", JObj (JStr s))]
                            /\ unwrap (field "duplicateStatus" values)
                               <> JStr s).
Proof.
  intros Hv. unfold record_updates. rewrite Hv.
  do 5 eexists. split; [reflexivity|].
  split; [apply name_update_shape|].
  split; [apply name_update_shape|].
  split; [apply phone_update_shape|].
  split; [apply usa_update_shape | apply duplicate_update_shape].
Qed.

(** X13.  Every update of the batch is well formed: it carries the id of a
    fetched record that has a field map, at least one field, no field
    twice, and only fields of the Contacts sheet other than [email], each
    as a wrapper object holding a value of the field's declared type. *)
Theorem updates_well_formed (records : list record) (u : record_update) :
  In u (compute_updates records) ->
  (exists rec values,
     In rec records /\ r_values rec = Some values /\ u_id u = r_id rec)
  /\ u_values u <> []
  /\ List.NoDup (map fst (u_values u))
  /\ forall k v, In (k, v) (u_values u) ->
       k <> "email"
       /\ ((In (k, "boolean") contacts_fields /\ exists b, v = JObj (JBool b))
           \/ (In (k, "string") contacts_fields
               /\ exists s, v = JObj (JStr s))).
Proof.
  intros Hu. unfold compute_updates in Hu. cbv zeta in Hu.
  pose proof (second_pass_not_empty _ _ _ _ Hu) as Hne.
  apply second_pass_origin in Hu.
  destruct Hu as (rec & values & Hin & Hv & Hid & Hr).
  split; [eauto|]. split; [exact Hne|].
  destruct (record_updates_parts (first_pass records).1
              (first_pass records).2 rec values Hv)
    as (a & b & c & d & e & Hparts & Ha & Hb & Hc & Hd & He).
  rewrite Hparts in Hr. injection Hr as <-.
  destruct Ha as [-> | (sa & -> & _)], Hb as [-> | (sb & -> & _)],
           Hc as [-> | (sc & -> & _)], Hd as [-> | (sd & -> & _)],
           He as [-> | (se & -> & _)]; simpl.
  all: split; [repeat constructor; simpl; intuition discriminate|].
  all: intros k v Hkv; simpl in Hkv.
  all: repeat match goal with
              | H : _ \/ _ |- _ => destruct H as [H | H]
              | H : False |- _ => destruct H
              | H : (_, _) = (_, _) |- _ => injection H as <- <-
              end.
  all: split; [discriminate|]; simpl; eauto 12.
Qed.

Lemma updates_well_formed_witness :
  let batch := [mkRecord "r1" (Some [("firstName", JStr "ANN");
                                     ("phone", JStr "5551234567")])] in
  let u := mkUpdate "r1" [("firstName", JObj (JStr "Ann"));
                          ("phone", JObj (JStr "+1 (555) 123-4567"));
                          ("isUSANumber", JObj (JBool true));
                          ("duplicateStatus", JObj (JStr unique_marker))] in
  In u (compute_updates batch) /\ List.NoDup (map fst (u_values u)).
Proof.
  intros batch u.
  assert (Hu : In u (compute_updates batch))
    by (vm_compute; left; reflexivity).
  split; [exact Hu|].
  destruct (updates_well_formed batch u Hu) as (_ & _ & H & _). exact H.
Defined.

(** ** Fields stored in wrapper form *)

Lemma wrapper_never_false w : jsval_eqb_bool (unwrap (JObj w)) false = false.
Proof.
  rewrite unwrap_wrapper. destruct (truthy w) eqn:Ht; [|reflexivity].
  destruct w as [| |b|z|s|v]; try reflexivity.
  simpl in Ht. now subst b.
Qed.

(** X15.  A flag stored in wrapper form never settles on false: for a
    record whose phone is classified non-USA and whose [isUSANumber] field
    is a wrapper object, whatever it holds, every run emits an
    [isUSANumber] update with value false. *)
Theorem wrapped_flag_rewritten_for_non_usa
    (records : list record) (rec : record) (values : list (string * jsval))
    (w : jsval) :
  In rec records -> r_values rec = Some values ->
  truthy (unwrap (field "phone" values)) = true ->
  isUSANumber (unwrap (field "phone" values)) = false ->
  field "isUSANumber" values = JObj w ->
  exists u, In u (compute_updates records)
            /\ u_id u = r_id rec
            /\ In ("isUSANumber", JObj (JBool false)) (u_values u).
Proof.
  intros Hin Hv Ht Husa Hw.
  apply (record_update_present records rec values _ Hin Hv).
  do 3 right. left.
  unfold usa_update. rewrite Ht, Husa, Hw, wrapper_never_false. now left.
Qed.

Lemma wrapped_flag_rewritten_for_non_usa_witness :
  let values := [("phone", JObj (JStr "+44 20 7946 0958"));
                 ("isUSANumber", JObj (JBool false))] in
  exists u, In u (compute_updates [mkRecord "r1" (Some values)])
            /\ u_id u = "r1"
            /\ In ("isUSANumber", JObj (JBool false)) (u_values u).
Proof.
  intros values.
  apply (wrapped_flag_rewritten_for_non_usa
           [mkRecord "r1" (Some values)] (mkRecord "r1" (Some values))
           values (JBool false)).
  - left; reflexivity.
  - reflexivity.
  - reflexivity.
  - reflexivity.
  - reflexivity.
Defined.

(** X16.  An empty phone stored in wrapper form is not skipped: the
    wrapper object itself is taken as the phone, so the record's phone is
    rewritten to "+" and the phone is classified non-USA. *)
Theorem wrapped_empty_phone_becomes_plus
    (records : list record) (rec : record) (values : list (string * jsval))
    (w : jsval) :
  In rec records -> r_values rec = Some values ->
  field "phone" values = JObj w -> truthy w = false ->
  isUSANumber (unwrap (field "phone" values)) = false
  /\ exists u, In u (compute_updates records)
               /\ u_id u = r_id rec
               /\ In ("phone", JObj (JStr "+")) (u_values u).
Proof.
  intros Hin Hv Hw Ht.
  assert (Hphone : unwrap (field "phone" values) = JObj w)
    by (now rewrite Hw, unwrap_wrapper, Ht).
  split; [now rewrite Hphone|].
  apply (record_update_present records rec values _ Hin Hv).
  do 2 right. left.
  unfold phone_update. rewrite Hphone. now left.
Qed.

Lemma wrapped_empty_phone_becomes_plus_witness :
  let values := [("firstName", JObj (JStr "Ann")); ("phone", JObj JNull)] in
  exists u, In u (compute_updates [mkRecord "r1" (Some values)])
            /\ u_id u = "r1"
            /\ In ("phone", JObj (JStr "+")) (u_values u).
Proof.
  intros values.
  apply (wrapped_empty_phone_becomes_plus
           [mkRecord "r1" (Some values)] (mkRecord "r1" (Some values))
           values JNull).
  - left; reflexivity.
  - reflexivity.
  - reflexivity.
  - reflexivity.
Defined.

(** ** formatRecords and the job handler *)

Lemma filter_is_update_pipeline trace :
  List.filter is_update trace = [] ->
  forall updates, ~ In (EvUpdate updates) trace.
Proof.
  intros Hf updates Hin.
  assert (H : In (EvUpdate updates) (List.filter is_update trace))
    by (apply filter_In; split; [exact Hin | reflexivity]).
  rewrite Hf in H. destruct H.
Qed.

(** X17.  formatRecords works on the records of the first attempt whose
    list starts with a record object (an attempt that rejects, yields an
    empty list or yields a list starting with [null] is retried): it
    submits the updates computed from them in one call, after the fetch,
    when there is at least one, and makes no update call otherwise; it
    throws exactly when that call is rejected, with the store's error. *)
Theorem formatRecords_after_fetch
    (st : store) (k : nat) (records : list record) :
  k < maxAttempts ->
  (forall j, j < k ->
     starts_with_record (attempt_yield (store_get st j)) = false) ->
  attempt_yield (store_get st k) = records ->
  starts_with_record records = true ->
  let fetched :=
    flat_map (failed_attempt_events (store_get st)) (seq 0 k) ++ [EvGet k] in
  let updates := compute_updates records in
  (forall us, ~ In (EvUpdate us) fetched)
  /\ formatRecords st
     = Some (match updates with
             | [] => (Returned, fetched)
             | _ :: _ =>
                 (match store_update st updates with
                  | Some message => Threw message
                  | None => Returned
                  end, fetched ++ [EvUpdate updates])
             end).
Proof.
  intros Hk Hfail Hy Hs fetched updates. split.
  - apply filter_is_update_pipeline. unfold fetched.
    rewrite List.filter_app.
    destruct (count_failed_attempts (store_get st) k 0) as (_ & _ & -> & _).
    reflexivity.
  - unfold formatRecords.
    rewrite (fetchRecords_first_success (store_get st) k records
               Hk Hfail Hy Hs).
    fold fetched. fold updates.
    destruct records as [|r records]; [discriminate Hs|].
    cbn [length Nat.eqb].
    destruct updates as [|u updates']; [reflexivity|].
    cbn [length Nat.ltb Nat.leb].
    now destruct (store_update st (u :: updates')).
Qed.

Lemma formatRecords_after_fetch_witness :
  let rec := mkRecord "r1" (Some [("firstName", JObj (JStr "ANN"))]) in
  let st := mkStore (fun n => match n with
                              | 0 => GetResolves (Nested [NullRecord; rec])
                              | 1 => GetResolves OtherShape
                              | _ => GetResolves (Nested [rec])
                              end)
                    (fun _ => Some "validation failed") in
  formatRecords st
  = Some (Threw "validation failed",
          [EvGet 0; EvAttemptFailed 1 null_id_error; EvWait 2000;
           EvGet 1; EvWait 2000; EvGet 2;
           EvUpdate [mkUpdate "r1"
                       [("firstName", JObj (JStr "Ann"));
                        ("duplicateStatus", JObj (JStr unique_marker))]]]).
Proof.
  intros rec st.
  destruct (formatRecords_after_fetch st 2 [rec]) as (_ & H).
  - unfold maxAttempts; lia.
  - intros [|[|j]] Hj; [reflexivity | reflexivity | lia].
  - reflexivity.
  - reflexivity.
  - rewrite H. vm_compute. reflexivity.
Defined.

Lemma formatRecords_total st :
  exists c tr, formatRecords st = Some (c, tr)
    /\ forall message, c = Threw message ->
         exists updates, store_update st updates = Some message
                         /\ In (EvUpdate updates) tr.
Proof.
  destruct (fetchRecords_total (store_get st)) as (records & trace & Hf & _).
  destruct (formatRecords_completion st records trace Hf)
    as (c & tr & Hrun & Hc).
  exists c, tr. split; [exact Hrun|].
  intros message ->.
  destruct Hc as [Hc | (updates & m & Hu & [= <-] & Hin)]; [discriminate|].
  eauto.
Qed.

Lemma filter_job_fail_pipeline tr :
  List.filter is_job_fail (map Pipeline tr) = [].
Proof. induction tr as [|e tr IH]; [reflexivity | exact IH]. Qed.

Lemma filter_job_complete_pipeline tr :
  List.filter is_job_complete (map Pipeline tr) = [].
Proof. induction tr as [|e tr IH]; [reflexivity | exact IH]. Qed.

Lemma filter_job_fail_report api message :
  List.filter is_job_fail (report_failure api message)
  = [JobFail ("❌ Formatting failed: " +:+ message)].
Proof. unfold report_failure. now destruct (jobs_fail api). Qed.

Lemma filter_job_complete_report api message :
  List.filter is_job_complete (report_failure api message) = [].
Proof. unfold report_failure. now destruct (jobs_fail api). Qed.

(** X18.  The handler of the "Format Data Now" action always ends
    normally.  It marks the job complete, and never failed, when the
    acknowledgement, formatRecords and the completion call all succeed.
    In every other case it marks the job failed exactly once, with the
    message of the first error after the prefix: formatRecords is not run
    when the acknowledgement is rejected, and a rejected batch update
    fails the job with the store's error without any completion call. *)
Theorem formatDataAction_reports (api : jobs) (st : store) :
  exists c tr trace,
    formatRecords st = Some (c, tr)
    /\ formatDataAction api st = Some trace
    /\ (jobs_ack api = None -> c = Returned -> jobs_complete api = None ->
        List.filter is_job_fail trace = []
        /\ trace = JobAck :: map Pipeline tr
                   ++ [JobComplete "✅ Data formatting completed successfully!"])
    /\ (forall e, jobs_ack api = Some e ->
          List.filter is_job_fail trace
          = [JobFail ("❌ Formatting failed: " +:+ e)]
          /\ List.filter is_job_complete trace = []
          /\ forall ev, ~ In (Pipeline ev) trace)
    /\ (forall e, jobs_ack api = None -> c = Threw e ->
          List.filter is_job_fail trace
          = [JobFail ("❌ Formatting failed: " +:+ e)]
          /\ List.filter is_job_complete trace = []
          /\ exists updates, store_update st updates = Some e
                             /\ In (Pipeline (EvUpdate updates)) trace)
    /\ (forall e, jobs_ack api = None -> c = Returned ->
          jobs_complete api = Some e ->
          List.filter is_job_fail trace
          = [JobFail ("❌ Formatting failed: " +:+ e)]).
Proof.
  destruct (formatRecords_total st) as (c & tr & Hrun & Hthrow).
  unfold formatDataAction. rewrite Hrun.
  destruct (jobs_ack api) as [ea|] eqn:Hack.
  { exists c, tr. eexists. split; [reflexivity|]. split; [reflexivity|].
    split; [discriminate|]. split.
    - intros e [= <-]. cbn [List.filter is_job_fail is_job_complete].
      rewrite filter_job_fail_report, filter_job_complete_report.
      repeat split. intros ev [H | H]; [discriminate H|].
      unfold report_failure in H.
      destruct (jobs_fail api); simpl in H; intuition discriminate.
    - split; intros e H; discriminate H. }
  destruct c as [|message].
  - destruct (jobs_complete api) as [ec|] eqn:Hc.
    + exists Returned, tr. eexists. split; [reflexivity|].
      split; [reflexivity|]. split; [discriminate|].
      split; [discriminate|]. split; [discriminate|].
      intros e _ _ [= <-]. cbn [List.filter is_job_fail].
      rewrite List.filter_app, filter_job_fail_pipeline.
      cbn [List.filter is_job_fail app].
      apply filter_job_fail_report.
    + exists Returned, tr. eexists. split; [reflexivity|].
      split; [reflexivity|]. split.
      * intros _ _ _. split; [|reflexivity]. cbn [List.filter is_job_fail].
        now rewrite List.filter_app, filter_job_fail_pipeline.
      * split; [discriminate|]. split; discriminate.
  - exists (Threw message), tr. eexists. split; [reflexivity|].
    split; [reflexivity|]. split; [discriminate|].
    split; [discriminate|]. split; [|discriminate].
    intros e _ [= <-].
    cbn [List.filter is_job_fail is_job_complete].
    rewrite !List.filter_app, filter_job_fail_pipeline,
      filter_job_complete_pipeline, filter_job_fail_report,
      filter_job_complete_report.
    repeat split.
    destruct (Hthrow message eq_refl) as (updates & Hu & Hin).
    exists updates. split; [exact Hu|].
    right. apply in_or_app. left. now apply in_map.
Qed.

Lemma formatDataAction_reports_witness :
  let rec := mkRecord "r1" (Some [("firstName", JObj (JStr "ANN"))]) in
  let st := mkStore (fun _ => GetResolves (Nested [rec]))
                    (fun _ => Some "validation failed") in
  let api := mkJobs None None None in
  exists trace,
    formatDataAction api st = Some trace
    /\ List.filter is_job_fail trace
       = [JobFail "❌ Formatting failed: validation failed"]
    /\ List.filter is_job_complete trace = [].
Proof.
  intros rec st api.
  destruct (formatDataAction_reports api st)
    as (c & tr & trace & Hrun & Hact & _ & _ & Hthrew & _).
  assert (Hc : c = Threw "validation failed").
  { vm_compute in Hrun. now injection Hrun as <- _. }
  destruct (Hthrew "validation failed" eq_refl Hc) as (Hf & Hcpl & _).
  exists trace. repeat split; assumption.
Defined.
